(** * LegalLens brain: the retrieval pipeline of [legallens-brain/index.js]

    A shallow embedding of the ChromaDB version of the Express back end
    (chunk upload, hybrid reranking, question answering, session listing and
    deletion) together with the properties of its specification.

    Conventions of the embedding.
    - A JavaScript number is a rational ([Q]): the arithmetic of the scoring
      formulas is exact.  Equality of numbers is [Qeq] ([==]).  The formulas
      whose properties depend on the rounding of the binary64 values of the
      runtime are given a second time on these values, in [Binary64].
    - A JavaScript string is a [string] whose characters are the code units
      U+0000..U+00FF.
    - A value that may be [undefined] is an [option].
    - A function that may throw returns a [Completion].
    - The collaborators that are not code of the repository (the regular
      expression engine of the runtime beyond literal patterns, the
      embedding and generation services, the text splitter, the calls of
      the vector index that the handlers of the sessions await and its
      nearest neighbour search) are [Variable]s of a [Section]. *)

From Stdlib Require Import QArith Qround Qabs Qminmax ZArith Lia Lqa.
From Stdlib Require Import String Ascii List Bool Arith DecimalString.
From Stdlib Require Import Permutation Sorted.
From Stdlib Require PrimFloat.
Import ListNotations.

Local Open Scope list_scope.
Local Open Scope string_scope.

(** ** Completions: normal return or thrown exception *)

Inductive JsError : Type :=
| SyntaxError (message : string)
| TypeError (message : string)
| Error (message : string).

Inductive Completion (A : Type) : Type :=
| Normal (value : A)
| Throw (error : JsError).

Arguments Normal {A} value.
Arguments Throw {A} error.

Definition bind {A B : Type} (c : Completion A) (k : A -> Completion B)
  : Completion B :=
  match c with
  | Normal a => k a
  | Throw e => Throw e
  end.

Notation "x <- c ;; k" := (bind c (fun x => k))
  (at level 61, c at next level, right associativity).

(** [Array.prototype.map] with a callback that may throw: the elements are
    visited from left to right and the first exception aborts the call. *)
Fixpoint mapM {A B : Type} (f : A -> Completion B) (l : list A)
  : Completion (list B) :=
  match l with
  | [] => Normal []
  | x :: xs => y <- f x ;; ys <- mapM f xs ;; Normal (y :: ys)
  end.

(** A [for ... of] loop that updates one accumulator and may throw. *)
Fixpoint foldM {A S : Type} (f : S -> A -> Completion S) (s : S) (l : list A)
  : Completion S :=
  match l with
  | [] => Normal s
  | x :: xs => s' <- f s x ;; foldM f s' xs
  end.

(** ** Numbers *)

Definition number : Type := Q.

Definition ofNat (n : nat) : number := inject_Z (Z.of_nat n).

(** Truthiness of a possibly undefined number, as tested by [x ? a : b] and
    [x || d]: [undefined] and [0] are falsy. *)
Definition truthy (x : option number) : bool :=
  match x with
  | Some q => negb (Qeq_bool q 0)
  | None => false
  end.

(** [x || d] on a possibly undefined number. *)
Definition orDefault (x : option number) (d : number) : number :=
  match x with
  | Some q => if Qeq_bool q 0 then d else q
  | None => d
  end.

Definition Math_max (a b : number) : number := if Qle_bool a b then b else a.

Definition Math_abs (a : number) : number := Qabs a.

(** [Number.prototype.toFixed(2)]: the sign, then the integer [n] closest to
    [100 * |x|] (the larger one of two) written with two decimals. *)
Definition twoDigits (n : Z) : string :=
  (if (n <? 10)%Z then "0" else "") ++
  NilZero.string_of_uint (N.to_uint (Z.to_N n)).

Definition toFixed2 (x : number) : string :=
  let n := Qfloor (Qabs x * 100 + (1 # 2)) in
  (if Qlt_le_dec x 0 then "-" else "") ++
  NilZero.string_of_uint (N.to_uint (Z.to_N (n / 100))) ++ "." ++
  twoDigits (n mod 100).

(** ** Strings *)

(** [\s] on the code units below U+0100. *)
Definition isWhiteSpace (c : ascii) : bool :=
  let n := nat_of_ascii c in
  ((9 <=? n)%nat && (n <=? 13)%nat) || (n =? 32)%nat || (n =? 160)%nat.

Definition lowerChar (c : ascii) : ascii :=
  let n := nat_of_ascii c in
  if ((65 <=? n)%nat && (n <=? 90)%nat) ||
     ((192 <=? n)%nat && (n <=? 222)%nat && negb (n =? 215)%nat)
  then ascii_of_nat (n + 32)%nat else c.

Fixpoint toLowerCase (s : string) : string :=
  match s with
  | EmptyString => EmptyString
  | String c s' => String (lowerChar c) (toLowerCase s')
  end.

Definition startsWithSpace (s : string) : bool :=
  match s with
  | String c _ => isWhiteSpace c
  | EmptyString => false
  end.

(** [s.split(/\s+/)]: every maximal run of white space separates two pieces;
    a run at either end leaves an empty piece there, and the empty string
    gives one empty piece. *)
Fixpoint split_ws (s : string) : list string :=
  match s with
  | EmptyString => [EmptyString]
  | String c s' =>
      if isWhiteSpace c then
        if startsWithSpace s' then split_ws s' else EmptyString :: split_ws s'
      else
        match split_ws s' with
        | piece :: rest => String c piece :: rest
        | [] => [String c EmptyString]
        end
  end.

(** [s.includes(t)]. *)
Fixpoint includes (s t : string) : bool :=
  String.prefix t s ||
  match s with
  | EmptyString => false
  | String _ s' => includes s' t
  end.

(** ** Regular expressions

    [new RegExp(pattern, 'g')] and [text.match(re)] are operations of the
    runtime.  Two parts of the constructor are written out:
    - a pattern without syntax characters matches itself;
    - a pattern whose groups or character classes are not closed, which has
      a closing parenthesis without an opening one, or which ends in a
      backslash, is rejected with a [SyntaxError].
    Every other pattern is handed to [hostRegExp], the rest of the engine. *)

Definition isSyntaxCharacter (c : ascii) : bool :=
  existsb (Ascii.eqb c)
    ["^"; "$"; "\"; "."; "*"; "+"; "?"; "("; ")"; "["; "]"; "{"; "}"; "|"]%char.

Fixpoint isLiteralPattern (p : string) : bool :=
  match p with
  | EmptyString => true
  | String c p' => negb (isSyntaxCharacter c) && isLiteralPattern p'
  end.

(** The scanner over a pattern: [depth] counts the open groups, [inClass]
    tells whether a character class is open and [escaped] whether the
    previous character was an unescaped backslash. *)
Fixpoint unbalanced (depth : nat) (inClass escaped : bool) (p : string)
  : bool :=
  match p with
  | EmptyString => escaped || inClass || negb (depth =? 0)%nat
  | String c p' =>
      if escaped then unbalanced depth inClass false p'
      else if Ascii.eqb c "\" then unbalanced depth inClass true p'
      else if inClass then unbalanced depth (negb (Ascii.eqb c "]")) false p'
      else if Ascii.eqb c "[" then unbalanced depth true false p'
      else if Ascii.eqb c "(" then unbalanced (S depth) false false p'
      else if Ascii.eqb c ")" then
        match depth with
        | O => true
        | S d => unbalanced d false false p'
        end
      else unbalanced depth false false p'
  end.

(** The successive matches of a literal pattern, scanning from the left and
    resuming after each match; [skip] is the number of characters of the
    current match still to be passed. *)
Fixpoint literalMatches (p : string) (skip : nat) (s : string) : list string :=
  match s with
  | EmptyString => []
  | String _ s' =>
      match skip with
      | S k => literalMatches p k s'
      | O =>
          if String.prefix p s
          then p :: literalMatches p (String.length p - 1)%nat s'
          else literalMatches p 0 s'
      end
  end.

(** A compiled global regular expression, by the list of its successive
    matches in a subject string. *)
Record RegExp : Type := { execAll : string -> list string }.

(** [text.match(re)] for a global [re]: [null] when nothing matches. *)
Definition String_match (text : string) (re : RegExp) : option (list string) :=
  match execAll re text with
  | [] => None
  | ms => Some ms
  end.

(** ** Data model *)

(** The metadata object stored with a chunk ([metadatas.push] of [/upload]);
    a field that a record may lack is an [option]. *)
Module Meta.
Record t : Type := mk {
  sessionId : option string;
  filename : option string;
  chunkIndex : option number;
  length : option number;
  position : option number;
  sentenceCount : option number;
  wordCount : option number
}.
End Meta.

(** A retrieved candidate, as built by [/ask] from the query results. *)
Record Chunk : Type := mkChunk {
  text : string;
  distance : option number;
  metadata : option Meta.t
}.

(** The [scores] object of a reranked chunk. *)
Module Scores.
Record t : Type := mk {
  semantic : string;
  bm25 : string;
  phrase : number;
  position : string;
  length : string;
  combined : string
}.
End Scores.

(** [{...chunk, scores, combinedScore}]. *)
Record ScoredChunk : Type := mkScored {
  chunk : Chunk;
  scores : Scores.t;
  combinedScore : number
}.

(** [chunk.metadata?.position] and [chunk.metadata?.length]. *)
Definition metadata_position (c : Chunk) : option number :=
  match metadata c with
  | Some m => Meta.position m
  | None => None
  end.

Definition metadata_length (c : Chunk) : option number :=
  match metadata c with
  | Some m => Meta.length m
  | None => None
  end.

Definition metadata_filename (c : Chunk) : option string :=
  match metadata c with
  | Some m => Meta.filename m
  | None => None
  end.

(** ** Generic list operations of the runtime *)

(** [Array.prototype.slice(0, end)] for an integer [end]: a negative [end]
    counts from the end of the array. *)
Definition slice0 {A : Type} (l : list A) (e : Z) : list A :=
  if (e <? 0)%Z
  then firstn (Z.to_nat (Z.max (Z.of_nat (List.length l) + e) 0)) l
  else firstn (Z.to_nat e) l.

(** [Array.prototype.sort(cmp)].  The sort of the runtime is stable; for a
    comparator that is a total preorder the result of any stable sort is the
    one of this insertion sort: [x] goes behind the elements [y] with
    [cmp x y > 0] and in front of the first other one. *)
Fixpoint insertBy {A : Type} (cmp : A -> A -> number) (x : A) (l : list A)
  : list A :=
  match l with
  | [] => [x]
  | y :: l' =>
      if Qlt_le_dec 0 (cmp x y) then y :: insertBy cmp x l' else x :: y :: l'
  end.

Fixpoint sortBy {A : Type} (cmp : A -> A -> number) (l : list A) : list A :=
  match l with
  | [] => []
  | x :: l' => insertBy cmp x (sortBy cmp l')
  end.

(** ** The reranker *)

Section Reranker.

(** The regular expression engine on the patterns that are neither literal
    nor rejected by the scanner above. *)
Variable hostRegExp : string -> Completion RegExp.

(** [new RegExp(pattern, 'g')].  A pattern with an unclosed group or class
    is rejected with a [SyntaxError]; the message given here starts as the
    one of the runtime does, which goes on with the flags and the reason
    after the second slash. *)
Definition RegExp_new (pattern : string) : Completion RegExp :=
  if unbalanced 0 false false pattern then
    Throw (SyntaxError ("Invalid regular expression: /" ++ pattern ++ "/"))
  else if isLiteralPattern pattern && negb (String.eqb pattern "") then
    Normal {| execAll := literalMatches pattern 0 |}
  else hostRegExp pattern.

(** [query.toLowerCase().split(/\s+/).filter(w => w.length > 2)]. *)
Definition queryWords (query : string) : list string :=
  filter (fun w => (2 <? String.length w)%nat) (split_ws (toLowerCase query)).

(** The n-grams pushed by the loop over [queryWords]. *)
Fixpoint queryBigrams (ws : list string) : list string :=
  match ws with
  | w0 :: ((w1 :: _) as rest) => (w0 ++ " " ++ w1) :: queryBigrams rest
  | _ => []
  end.

Fixpoint queryTrigrams (ws : list string) : list string :=
  match ws with
  | w0 :: ((w1 :: w2 :: _) as rest) =>
      (w0 ++ " " ++ w1 ++ " " ++ w2) :: queryTrigrams rest
  | _ => []
  end.

Definition k1 : number := 15 # 10.
Definition b : number := 75 # 100.
Definition avgDocLength : number := 300.

(** [(tf * (k1 + 1)) / (tf + k1 * (1 - b + b * (docLength / avgDocLength)))]. *)
Definition normalizedTF (tf docLength : number) : number :=
  (tf * (k1 + 1)) / (tf + k1 * (1 - b + b * (docLength / avgDocLength))).

(** [(chunkText.match(new RegExp(word, 'g')) || []).length]. *)
Definition termFrequency (chunkText word : string) : Completion nat :=
  re <- RegExp_new word ;;
  Normal (match String_match chunkText re with
          | Some ms => List.length ms
          | None => 0%nat
          end).

(** The body of the loop [for (const word of queryWords)]. *)
Definition bm25Step (chunkText : string) (docLength : number)
    (bm25Score : number) (word : string) : Completion number :=
  tf <- termFrequency chunkText word ;;
  Normal (bm25Score + normalizedTF (ofNat tf) docLength * 2).

Definition bm25Score (words : list string) (chunkText : string)
  : Completion number :=
  let chunkWords := split_ws chunkText in
  let docLength := ofNat (List.length chunkWords) in
  foldM (bm25Step chunkText docLength) 0 words.

(** The two loops over the trigrams and the bigrams. *)
Definition phraseScore (words : list string) (chunkText : string) : number :=
  let afterTrigrams :=
    fold_left (fun score trigram =>
                 if includes chunkText trigram then score + 10 else score)
              (queryTrigrams words) 0 in
  fold_left (fun score bigram =>
               if includes chunkText bigram then score + 5 else score)
            (queryBigrams words) afterTrigrams.

(** [chunk.distance ? (1 - chunk.distance) * 10 : 0]. *)
Definition semanticScore (c : Chunk) : number :=
  if truthy (distance c)
  then match distance c with
       | Some d => (1 - d) * 10
       | None => 0
       end
  else 0.

(** [chunk.metadata?.position
      ? Math.max(0, 3 - chunk.metadata.position * 0.1) : 0]. *)
Definition positionScore (c : Chunk) : number :=
  if truthy (metadata_position c)
  then match metadata_position c with
       | Some p => Math_max 0 (3 - p * (1 # 10))
       | None => 0
       end
  else 0.

Definition optimalLength : number := 1200.

(** [Math.max(0, 2 - Math.abs((chunk.metadata?.length || 1000)
                               - optimalLength) / 500)]. *)
Definition lengthScore (c : Chunk) : number :=
  let lengthDiff := Math_abs (orDefault (metadata_length c) 1000 - optimalLength) in
  Math_max 0 (2 - lengthDiff / 500).

(** The weighted sum of the five signals. *)
Definition combine (semantic bm25 phrase position length : number) : number :=
  semantic * (45 # 100) + bm25 * (30 # 100) + phrase * (15 # 100) +
  position * (5 # 100) + length * (5 # 100).

(** The callback of [chunks.map]. *)
Definition scoreChunk (words : list string) (c : Chunk)
  : Completion ScoredChunk :=
  let chunkText := toLowerCase (text c) in
  bm25 <- bm25Score words chunkText ;;
  let phrase := phraseScore words chunkText in
  let semantic := semanticScore c in
  let position := positionScore c in
  let length := lengthScore c in
  let combined := combine semantic bm25 phrase position length in
  Normal {| chunk := c;
            scores := {| Scores.semantic := toFixed2 semantic;
                         Scores.bm25 := toFixed2 bm25;
                         Scores.phrase := phrase;
                         Scores.position := toFixed2 position;
                         Scores.length := toFixed2 length;
                         Scores.combined := toFixed2 combined |};
            combinedScore := combined |}.

(** [(a, b) => b.combinedScore - a.combinedScore]. *)
Definition byCombinedScore (x y : ScoredChunk) : number :=
  combinedScore y - combinedScore x.

(** [optimalReranking(query, chunks, topK)]; the callers pass [topK], whose
    default is 5.  The closing [console.log] does not throw and has no part
    in the result. *)
Definition optimalReranking (query : string) (chunks : list Chunk) (topK : Z)
  : Completion (list ScoredChunk) :=
  let words := queryWords query in
  scoredChunks <- mapM (scoreChunk words) chunks ;;
  let sorted := sortBy byCombinedScore scoredChunks in
  let topChunks := slice0 sorted topK in
  Normal topChunks.

End Reranker.

(** ** The signals on the doubles of the runtime

    The numbers of the runtime are IEEE 754 binary64 values and every
    operation on them rounds to the nearest one.  The saturation formula of
    the BM25 term, the semantic score and the position score of
    [optimalReranking] are given here on these values. *)

Module Binary64.

Import PrimFloat.

(** The double of an integer, exact below 2^53: the length of an array or
    the position of a chunk. *)
Fixpoint ofPositive (p : positive) : float :=
  match p with
  | xH => 1
  | xO q => 2 * ofPositive q
  | xI q => 2 * ofPositive q + 1
  end%float.

Definition ofZ (z : Z) : float :=
  match z with
  | Z0 => 0
  | Zpos p => ofPositive p
  | Zneg p => - ofPositive p
  end%float.

Definition k1 : float := 1.5%float.
Definition b : float := 0.75%float.
Definition avgDocLength : float := 300%float.

Definition normalizedTF (tf docLength : float) : float :=
  ((tf * (k1 + 1)) / (tf + k1 * (1 - b + b * (docLength / avgDocLength))))%float.

(** [bm25Score += normalizedTF * 2] for a word that matches [tf] times. *)
Definition bm25Step (bm25Score tf docLength : float) : float :=
  (bm25Score + normalizedTF tf docLength * 2)%float.

(** [x ? a : b] on a double: [0], [-0] and [NaN] are falsy. *)
Definition truthy (x : float) : bool := ltb x 0 || ltb 0 x.

(** [Math.max(0, x)]. *)
Definition Math_max0 (x : float) : float :=
  if ltb 0 x then x else if is_nan x then x else 0%float.

(** [chunk.distance ? (1 - chunk.distance) * 10 : 0]. *)
Definition semanticScore (distance : float) : float :=
  if truthy distance then ((1 - distance) * 10)%float else 0%float.

(** [position ? Math.max(0, 3 - position * 0.1) : 0]. *)
Definition positionScore (position : float) : float :=
  if truthy position then Math_max0 (3 - position * 0.1)%float else 0%float.

Fixpoint range (n : nat) (from : Z) : list Z :=
  match n with
  | O => []
  | S n' => from :: range n' (from + 1)
  end.

(** One more match of a word in a text of [docLength] words lowers neither
    the saturated term frequency nor what the word adds to a score of 0. *)
Definition stepHolds (docLength tf : Z) : bool :=
  let lower := normalizedTF (ofZ tf) (ofZ docLength) in
  let upper := normalizedTF (ofZ (tf + 1)) (ofZ docLength) in
  leb lower upper && leb (0 + lower * 2) (0 + upper * 2).

(** The position score of an integer position is at least 0 and below 3;
    after position 0 it is not below the one of the next position, and from
    position 30 on it is 0. *)
Definition positionHolds (position : Z) : bool :=
  let here := positionScore (ofZ position) in
  let next := positionScore (ofZ (position + 1)) in
  leb 0 here && ltb here 3 &&
  (Z.eqb position 0 || leb next here) &&
  (Z.ltb position 30 || eqb here 0).

(** A distance and a position next to 0: 2^-54 and 2^-57. *)
Definition nearestDistance : float := 0x1p-54%float.
Definition nearestPosition : float := 0x1p-57%float.

End Binary64.

(** ** The vector index

    The ChromaDB collection, by the records it holds in insertion order.
    [collection_get] and [collection_delete] are what the index does to
    these records when it serves the call, written out from its interface;
    the calls themselves, which may be rejected, as well as [add] and the
    nearest neighbour [query], are [Variable]s of the server. *)

Record IndexedChunk : Type := mkIndexed {
  id : string;
  embedding : list number;
  document : string;
  meta : Meta.t
}.

Definition Collection : Type := list IndexedChunk.

(** The filter [{ sessionId: s }]. *)
Definition whereSessionId (s : string) (r : IndexedChunk) : bool :=
  match Meta.sessionId (meta r) with
  | Some s' => String.eqb s' s
  | None => false
  end.

Record GetResult : Type := mkGet {
  ids : list string;
  documents : list string;
  metadatas : list Meta.t
}.

(** [collection.get()] and [collection.get({ where: { sessionId } })]. *)
Definition collection_get (where_ : option string) (c : Collection)
  : GetResult :=
  let selected :=
    match where_ with
    | Some s => filter (whereSessionId s) c
    | None => c
    end in
  {| ids := map id selected;
     documents := map document selected;
     metadatas := map meta selected |}.

(** [collection.delete({ ids })]. *)
Definition collection_delete (ids : list string) (c : Collection) : Collection :=
  filter (fun r => negb (existsb (String.eqb (id r)) ids)) c.

(** The value that an awaited [collection.get] resolves to, as the handlers
    read it: [ids], [documents] and [metadatas] may be missing, and the entry
    of [metadatas] for a record without metadata is [null]. *)
Record GetResponse : Type := mkResponse {
  response_ids : option (list string);
  response_documents : option (list string);
  response_metadatas : option (list (option Meta.t))
}.

(** The response that carries the selected records of the collection. *)
Definition answerOf (result : GetResult) : GetResponse :=
  {| response_ids := Some (ids result);
     response_documents := Some (documents result);
     response_metadatas := Some (map Some (metadatas result)) |}.

(** ** Responses of the handlers *)

Inductive Response (Body : Type) : Type :=
| Json (body : Body)
| Status (code : nat) (message : string).

Arguments Json {Body} body.
Arguments Status {Body} code message.

Definition message_of (e : JsError) : string :=
  match e with
  | SyntaxError m | TypeError m | Error m => m
  end.

(** A handler reads and updates the collection and may throw. *)
Definition Handler (A : Type) : Type := Collection -> Completion A * Collection.

Definition ret {A : Type} (a : A) : Handler A := fun c => (Normal a, c).

Definition lift {A : Type} (x : Completion A) : Handler A := fun c => (x, c).

Definition bindH {A B : Type} (h : Handler A) (k : A -> Handler B)
  : Handler B :=
  fun c =>
    match h c with
    | (Normal a, c') => k a c'
    | (Throw e, c') => (Throw e, c')
    end.

Notation "x <~ h ;; k" := (bindH h (fun x => k))
  (at level 61, h at next level, right associativity).

(** [try { ... } catch (error) { res.status(500).send(error.message) }]. *)
Definition tryCatch {Body : Type} (h : Handler (Response Body))
  : Collection -> Response Body * Collection :=
  fun c =>
    match h c with
    | (Normal r, c') => (r, c')
    | (Throw e, c') => (Status 500 (message_of e), c')
    end.

(** Truthiness of a possibly undefined string. *)
Definition truthyString (s : option string) : bool :=
  match s with
  | Some s' => negb (String.eqb s' "")
  | None => false
  end.

Definition newline : string := String (ascii_of_nat 10) "".
Definition quote : string := String (ascii_of_nat 34) "".

Definition string_of_nat (n : nat) : string :=
  NilZero.string_of_uint (Nat.to_uint n).

(** ** Chunks of an uploaded document *)

Module ChunkMeta.
Record t : Type := mk {
  length : nat;
  position : nat;
  sentenceCount : nat;
  wordCount : nat
}.
End ChunkMeta.

Record DocChunk : Type := mkDocChunk {
  chunk_text : string;
  chunk_metadata : ChunkMeta.t
}.

(** [String.prototype.trim]. *)
Fixpoint trimStart (s : string) : string :=
  match s with
  | String c s' => if isWhiteSpace c then trimStart s' else s
  | EmptyString => EmptyString
  end.

Fixpoint trimEnd (s : string) : string :=
  match s with
  | String c s' =>
      match trimEnd s' with
      | EmptyString => if isWhiteSpace c then EmptyString else String c EmptyString
      | rest => String c rest
      end
  | EmptyString => EmptyString
  end.

Definition trim (s : string) : string := trimEnd (trimStart s).

Definition isSentenceEnd (c : ascii) : bool :=
  existsb (Ascii.eqb c) ["."; "!"; "?"]%char.

(** [(s.match(/[.!?]+/g) || []).length]: the maximal runs of [.], [!], [?]. *)
Fixpoint sentenceRuns (inRun : bool) (s : string) : nat :=
  match s with
  | EmptyString => 0
  | String c s' =>
      if isSentenceEnd c
      then (if inRun then 0 else 1) + sentenceRuns true s'
      else sentenceRuns false s'
  end.

(** The value held by [const chunks] in [/upload]: an array, or the promise
    that a call of an [async function] returns when it is not awaited. *)
Inductive ChunksValue : Type :=
| ArrayValue (items : list DocChunk)
| PromiseValue (settles : Completion (list DocChunk)).

(** [chunks.length]: an array has the property, a promise does not. *)
Definition get_length (v : ChunksValue) : option nat :=
  match v with
  | ArrayValue items => Some (List.length items)
  | PromiseValue _ => None
  end.

(** [chunks[i]]. *)
Definition get_item (v : ChunksValue) (i : nat) : option DocChunk :=
  match v with
  | ArrayValue items => nth_error items i
  | PromiseValue _ => None
  end.

(** The indices visited by [for (let i = 0; i < n; i++)]: [i < undefined]
    is false, so that no index is visited when [n] is [undefined]. *)
Definition forIndices (n : option nat) : list nat :=
  match n with
  | Some k => seq 0 k
  | None => []
  end.

(** ** Bodies of the JSON responses *)

Record UploadBody : Type := mkUploadBody {
  upload_message : string;
  upload_filename : string;
  chunkCount : option nat;
  upload_sessionId : string;
  strategy : string
}.

Record File : Type := mkFile {
  path : string;
  originalname : string;
  file_filename : string
}.

Record AddRequest : Type := mkAdd {
  add_ids : list string;
  add_embeddings : list (list number);
  add_documents : list string;
  add_metadatas : list Meta.t
}.

Record QueryParams : Type := mkQuery {
  queryEmbeddings : list (list number);
  nResults : nat;
  where_sessionId : option string
}.

(** [results.documents[0]], [results.distances[0]], [results.metadatas[0]]. *)
Record QueryResult : Type := mkResult {
  documents0 : option (list string);
  distances0 : list number;
  metadatas0 : list (option Meta.t)
}.

Inductive SearchedDocuments : Type := OneDocument | AllDocuments.

Record Source : Type := mkSource {
  source_text : string;
  source_filename : string;
  source_scores : Scores.t
}.

Record LlmParams : Type := mkParams {
  temperature : number;
  top_p : number;
  top_k : nat;
  repeat_penalty : number;
  num_predict : nat
}.

Record Settings : Type := mkSettings {
  retrievalCount : nat;
  rerankCount : Z;
  settings_temperature : number;
  topP : number;
  topK : nat;
  settings_strategy : string
}.

Record RetrievalInfo : Type := mkInfo {
  initialRetrieved : nat;
  afterReranking : nat;
  documentsSearched : nat;
  settings : Settings
}.

Record AskBody : Type := mkAskBody {
  answer : string;
  sources : list Source;
  searchedDocuments : option SearchedDocuments;
  retrievalInfo : option RetrievalInfo
}.

Record AskRequest : Type := mkAsk {
  question : option string;
  ask_sessionId : option string
}.

Record Session : Type := mkSession {
  session_sessionId : string;
  session_filename : option string;
  session_chunkCount : nat
}.

Record DeleteBody : Type := mkDeleteBody { delete_message : string }.

(** ** A [Map] with string keys, in insertion order *)

Definition JsMap (V : Type) : Type := list (string * V).

Fixpoint Map_get {V : Type} (m : JsMap V) (k : string) : option V :=
  match m with
  | [] => None
  | (k', v) :: m' => if String.eqb k' k then Some v else Map_get m' k
  end.

Definition Map_has {V : Type} (m : JsMap V) (k : string) : bool :=
  match Map_get m k with
  | Some _ => true
  | None => false
  end.

(** [m.set(k, v)]: a present key keeps its place. *)
Fixpoint Map_set {V : Type} (m : JsMap V) (k : string) (v : V) : JsMap V :=
  match m with
  | [] => [(k, v)]
  | (k', v') :: m' =>
      if String.eqb k' k then (k', v) :: m' else (k', v') :: Map_set m' k v
  end.

Definition Map_values {V : Type} (m : JsMap V) : list V := map snd m.

(** [m.get(k).f(...)] on the object stored under [k], which is updated in
    place. *)
Fixpoint Map_update {V : Type} (m : JsMap V) (k : string) (f : V -> V)
  : JsMap V :=
  match m with
  | [] => []
  | (k', v) :: m' =>
      if String.eqb k' k then (k', f v) :: m' else (k', v) :: Map_update m' k f
  end.

Definition OPTIMAL_LLM_PARAMS : LlmParams :=
  {| temperature := 2 # 10;
     top_p := 85 # 100;
     top_k := 30;
     repeat_penalty := 115 # 100;
     num_predict := 600 |}.

Definition OPTIMAL_RETRIEVAL_initialFetch : nat := 20.
Definition OPTIMAL_RETRIEVAL_afterReranking : Z := 5.

Definition cannotFind : string :=
  "I cannot find relevant information in the document(s) to answer this question.".

Fixpoint mapIndexedFrom {A B : Type} (f : A -> nat -> B) (i : nat) (l : list A)
  : list B :=
  match l with
  | [] => []
  | x :: xs => f x i :: mapIndexedFrom f (S i) xs
  end.

(** [array.map((x, index) => ...)]. *)
Definition mapIndexed {A B : Type} (f : A -> nat -> B) (l : list A) : list B :=
  mapIndexedFrom f 0 l.

(** [array.join(separator)]. *)
Fixpoint join (separator : string) (l : list string) : string :=
  match l with
  | [] => ""
  | [x] => x
  | x :: xs => x ++ separator ++ join separator xs
  end.

(** [x || 'Unknown'] on a possibly undefined string. *)
Definition orUnknown (s : option string) : string :=
  match s with
  | Some s' => if String.eqb s' "" then "Unknown" else s'
  | None => "Unknown"
  end.

(** ** The server *)

Section Server.

Variable hostRegExp : string -> Completion RegExp.

(** The two calls to the Ollama service: the embedding of a text and the
    response to a prompt. *)
Variable ollama_embeddings : string -> Completion (list number).
Variable ollama_generate : string -> LlmParams -> Completion string.

(** [textSplitter.createDocuments([text])], by the page contents of the
    documents it returns. *)
Variable createDocuments : string -> Completion (list string).

Variable extractTextFromFile : string -> string -> Completion string.
Variable fs_unlink : string -> Completion unit.

Variable collection_add : AddRequest -> Collection -> Completion Collection.
Variable collection_query : QueryParams -> Collection -> Completion QueryResult.

(** [await collection.get(...)] and [await collection.delete({ ids })] in
    [/sessions] and in the deletion of a session: the promise of the index is
    rejected when the index cannot serve the call, and the [await] throws
    inside the [try] of the handler.  [collection_get] and
    [collection_delete] above are what an index that serves the call
    does. *)
Variable await_collection_get
  : option string -> Collection -> Completion GetResponse.
Variable await_collection_delete
  : list string -> Collection -> Completion Collection.

(** [async function optimalChunkText(text)]. *)
Definition optimalChunkText (text : string) : Completion (list DocChunk) :=
  documents <- createDocuments text ;;
  Normal (mapIndexed
            (fun pageContent index =>
               {| chunk_text := trim pageContent;
                  chunk_metadata :=
                    {| ChunkMeta.length := String.length (trim pageContent);
                       ChunkMeta.position := index;
                       ChunkMeta.sentenceCount := sentenceRuns false pageContent;
                       ChunkMeta.wordCount :=
                         List.length (split_ws (trim pageContent)) |} |})
            documents).

(** [async function getEmbedding(text)]. *)
Definition getEmbedding (text : string) : Completion (list number) :=
  match ollama_embeddings text with
  | Normal e => Normal e
  | Throw _ => Throw (Error "Failed to get embedding from local AI")
  end.

Definition prompt (question context : string) : string :=
  "You are a legal contract analysis expert. Answer the user's question based on the contract excerpts provided below."
  ++ newline ++ newline ++
  "Focus on:" ++ newline ++
  "- Identifying relevant clauses and provisions" ++ newline ++
  "- Explaining obligations and rights" ++ newline ++
  "- Highlighting risks and liabilities" ++ newline ++
  "- Providing clear legal interpretations" ++ newline ++ newline ++
  "If the information is not in the provided contract text, say " ++ quote ++
  "I cannot find this information in the contract." ++ quote ++
  newline ++ newline ++
  "CONTRACT EXCERPTS:" ++ newline ++ context ++ newline ++ newline ++
  "QUESTION: " ++ question ++ newline ++ newline ++ "ANSWER:".

(** [async function askOllama(question, context, llmParams)]. *)
Definition askOllama (question context : string) (llmParams : LlmParams)
  : Completion string :=
  match ollama_generate (prompt question context) llmParams with
  | Normal response => Normal response
  | Throw _ => Throw (Error "Failed to get answer from local AI")
  end.

Definition emptyAdd : AddRequest :=
  {| add_ids := []; add_embeddings := []; add_documents := [];
     add_metadatas := [] |}.

(** The body of the loop of [/upload] over the indices of [chunks]. *)
Definition uploadStep (file : File) (chunks : ChunksValue)
    (acc : AddRequest) (i : nat) : Completion AddRequest :=
  match get_item chunks i with
  | None =>
      Throw (TypeError "Cannot read properties of undefined (reading 'text')")
  | Some chunk =>
      embedding <- getEmbedding (chunk_text chunk) ;;
      Normal
        {| add_ids :=
             (add_ids acc ++
              [(file_filename file ++ "_chunk_" ++ string_of_nat i)%string])%list;
           add_embeddings := (add_embeddings acc ++ [embedding])%list;
           add_documents := (add_documents acc ++ [chunk_text chunk])%list;
           add_metadatas :=
             (add_metadatas acc ++
              [ {| Meta.sessionId := Some (file_filename file);
                   Meta.filename := Some (originalname file);
                   Meta.chunkIndex := Some (ofNat i);
                   Meta.length :=
                     Some (ofNat (ChunkMeta.length (chunk_metadata chunk)));
                   Meta.position :=
                     Some (ofNat (ChunkMeta.position (chunk_metadata chunk)));
                   Meta.sentenceCount :=
                     Some (ofNat (ChunkMeta.sentenceCount (chunk_metadata chunk)));
                   Meta.wordCount :=
                     Some (ofNat (ChunkMeta.wordCount (chunk_metadata chunk)))
                |} ])%list |}
  end.

(** [/upload] from the declaration of [sessionId] on, for the value that
    [chunks] holds. *)
Definition storeChunks (file : File) (chunks : ChunksValue)
  : Handler (Response UploadBody) :=
  request <~ lift (foldM (uploadStep file chunks) emptyAdd
                         (forIndices (get_length chunks))) ;;
  _ <~ (fun c => match collection_add request c with
                 | Normal c' => (Normal tt, c')
                 | Throw e => (Throw e, c)
                 end) ;;
  _ <~ lift (fs_unlink (path file)) ;;
  ret (Json {| upload_message :=
                 "File uploaded, processed, and stored with optimal RAG strategy!";
               upload_filename := originalname file;
               chunkCount := get_length chunks;
               upload_sessionId := file_filename file;
               strategy := "optimal" |}).

(** [app.post('/upload', ...)]: [optimalChunkText] is called without
    [await], so that [chunks] is the promise of its result. *)
Definition post_upload (file : option File)
  : Collection -> Response UploadBody * Collection :=
  tryCatch
    match file with
    | None => ret (Status 400 "No file uploaded.")
    | Some f =>
        extractedText <~ lift (extractTextFromFile (path f) (originalname f)) ;;
        let chunks := PromiseValue (optimalChunkText extractedText) in
        storeChunks f chunks
    end.

(** The chunks handed to the reranker by [/ask]. *)
Definition retrievedChunks (results : QueryResult) (docs : list string)
  : list Chunk :=
  mapIndexed
    (fun doc idx =>
       {| text := doc;
          distance := nth_error (distances0 results) idx;
          metadata := match nth_error (metadatas0 results) idx with
                      | Some m => m
                      | None => None
                      end |})
    docs.

(** The [Map] from file name to the texts of its chunks. *)
Definition documentSources (reranked : list ScoredChunk)
  : JsMap (list string) :=
  fold_left
    (fun m c =>
       let filename := orUnknown (metadata_filename (chunk c)) in
       let m' := if Map_has m filename then m else Map_set m filename [] in
       Map_update m' filename (fun texts => (texts ++ [text (chunk c)])%list))
    reranked [].

Definition context (reranked : list ScoredChunk) : string :=
  join (newline ++ newline ++ "---" ++ newline ++ newline)
    (map (fun c =>
            "[Source: " ++ orUnknown (metadata_filename (chunk c)) ++ "]" ++
            newline ++ text (chunk c))
         reranked).

(** [app.post('/ask', ...)]. *)
Definition post_ask (req : AskRequest)
  : Collection -> Response AskBody * Collection :=
  tryCatch
    match question req with
    | Some q =>
        if String.eqb q "" then ret (Status 400 "Missing question.")
        else
          questionEmbedding <~ lift (getEmbedding q) ;;
          let queryParams :=
            {| queryEmbeddings := [questionEmbedding];
               nResults := OPTIMAL_RETRIEVAL_initialFetch;
               where_sessionId :=
                 if truthyString (ask_sessionId req)
                 then ask_sessionId req else None |} in
          results <~ (fun c => (collection_query queryParams c, c)) ;;
          match documents0 results with
          | None | Some [] =>
              ret (Json {| answer := cannotFind;
                           sources := [];
                           searchedDocuments :=
                             Some (if truthyString (ask_sessionId req)
                                   then OneDocument else AllDocuments);
                           retrievalInfo := None |})
          | Some docs =>
              let retrieved := retrievedChunks results docs in
              rerankedChunks <~
                lift (optimalReranking hostRegExp q retrieved
                        OPTIMAL_RETRIEVAL_afterReranking) ;;
              answer <~ lift (askOllama q (context rerankedChunks)
                                OPTIMAL_LLM_PARAMS) ;;
              ret (Json
                {| answer := answer;
                   sources :=
                     map (fun c =>
                            {| source_text := text (chunk c);
                               source_filename :=
                                 orUnknown (metadata_filename (chunk c));
                               source_scores := scores c |})
                         rerankedChunks;
                   searchedDocuments := None;
                   retrievalInfo :=
                     Some {| initialRetrieved := List.length retrieved;
                             afterReranking := List.length rerankedChunks;
                             documentsSearched :=
                               List.length (documentSources rerankedChunks);
                             settings :=
                               {| retrievalCount :=
                                    OPTIMAL_RETRIEVAL_initialFetch;
                                  rerankCount :=
                                    OPTIMAL_RETRIEVAL_afterReranking;
                                  settings_temperature :=
                                    temperature OPTIMAL_LLM_PARAMS;
                                  topP := top_p OPTIMAL_LLM_PARAMS;
                                  topK := top_k OPTIMAL_LLM_PARAMS;
                                  settings_strategy := "optimal" |}
                          |} |})
          end
    | None => ret (Status 400 "Missing question.")
    end.

(** The callback of [allData.metadatas.forEach] in [/sessions]. *)
Definition sessionsStep (sessionsMap : JsMap Session) (m : Meta.t)
  : JsMap Session :=
  match Meta.sessionId m with
  | Some s =>
      if String.eqb s "" then sessionsMap
      else
        let sessionsMap' :=
          if Map_has sessionsMap s then sessionsMap
          else Map_set sessionsMap s
                 {| session_sessionId := s;
                    session_filename := Meta.filename m;
                    session_chunkCount := 0 |} in
        Map_update sessionsMap' s
          (fun session =>
             {| session_sessionId := session_sessionId session;
                session_filename := session_filename session;
                session_chunkCount := S (session_chunkCount session) |})
  | None => sessionsMap
  end.

(** The callback on an entry of [allData.metadatas]: [meta.sessionId] on
    [null] throws. *)
Definition sessionsCallback (sessionsMap : JsMap Session) (m : option Meta.t)
  : Completion (JsMap Session) :=
  match m with
  | Some m' => Normal (sessionsStep sessionsMap m')
  | None =>
      Throw (TypeError "Cannot read properties of null (reading 'sessionId')")
  end.

(** [app.get('/sessions', ...)]. *)
Definition get_sessions : Collection -> Response (list Session) * Collection :=
  tryCatch
    (allData <~ (fun c => (await_collection_get None c, c)) ;;
     sessionsMap <~
       lift match response_metadatas allData with
            | Some metadatas => foldM sessionsCallback [] metadatas
            | None => Normal []
            end ;;
     ret (Json (Map_values sessionsMap))).

(** [app.delete('/session/:sessionId', ...)]; a rejected [delete] leaves the
    collection as it was. *)
Definition delete_session (sessionId : string)
  : Collection -> Response DeleteBody * Collection :=
  tryCatch
    (results <~ (fun c => (await_collection_get (Some sessionId) c, c)) ;;
     match response_ids results with
     | Some ((_ :: _) as ids) =>
         _ <~ (fun c => match await_collection_delete ids c with
                        | Normal c' => (Normal tt, c')
                        | Throw e => (Throw e, c)
                        end) ;;
         ret (Json {| delete_message :=
                        "Deleted " ++ string_of_nat (List.length ids) ++
                        " chunks for session " ++ sessionId |})
     | Some [] | None => ret (Status 404 "Session not found")
     end).

End Server.

(** ** Vocabulary of the specification *)

(** Two chunks of one session carry different file names. *)
Definition disagreeOnFilename (c : Collection) : Prop :=
  exists r1 r2 s,
    In r1 c /\ In r2 c /\ s <> "" /\
    Meta.sessionId (meta r1) = Some s /\ Meta.sessionId (meta r2) = Some s /\
    Meta.filename (meta r1) <> Meta.filename (meta r2).

(** The session that stands for the identifier [k] in a collection: the file
    name is the one of the first chunk of the group in the order of the
    collection, the count is the size of the group. *)
Definition sessionOf (k : string) (c : Collection) : option Session :=
  match find (whereSessionId k) c with
  | Some first =>
      if String.eqb k "" then None
      else Some {| session_sessionId := k;
                   session_filename := Meta.filename (meta first);
                   session_chunkCount :=
                     List.length (filter (whereSessionId k) c) |}
  | None => None
  end.

Definition countedOnceMore (session : Session) : Session :=
  {| session_sessionId := session_sessionId session;
     session_filename := session_filename session;
     session_chunkCount := S (session_chunkCount session) |}.

(** The index serves every [get] and every [delete]. *)
Definition serves
    (get : option string -> Collection -> Completion GetResponse)
    (delete : list string -> Collection -> Completion Collection) : Prop :=
  (forall where_ c, get where_ c = Normal (answerOf (collection_get where_ c))) /\
  (forall ids c, delete ids c = Normal (collection_delete ids c)).

(** The response reports a failure to the caller. *)
Definition isFailure {Body : Type} (r : Response Body) : Prop :=
  match r with
  | Json _ => False
  | Status _ _ => True
  end.

(** ** Text extraction

    [path.extname], [fs.readFile], [pdfParse] and [mammoth.extractRawText]
    are operations of the platform and of libraries. *)

Section TextExtraction.

Variable Buffer : Type.
Variable path_extname : string -> string.
Variable fs_readFile : string -> Completion Buffer.
Variable pdfParse : Buffer -> Completion string.
Variable mammoth_extractRawText : string -> Completion string.

(** The body of the [try] of [extractTextFromFile]. *)
Definition readByExtension (filePath extension : string) : Completion string :=
  if String.eqb extension ".pdf" then
    dataBuffer <- fs_readFile filePath ;;
    pdfParse dataBuffer
  else if String.eqb extension ".docx" then
    mammoth_extractRawText filePath
  else
    Throw (Error "Unsupported file type. Please upload a PDF or DOCX file.").

(** [async function extractTextFromFile(filePath, originalName)]. *)
Definition extractTextFromFile (filePath originalName : string)
  : Completion string :=
  let extension := toLowerCase (path_extname originalName) in
  match readByExtension filePath extension with
  | Normal extracted => Normal extracted
  | Throw error =>
      Throw (Error ("Could not read the file: " ++ message_of error))
  end.

End TextExtraction.

(** ** Clause analysis *)

(** [collection.get({ where: { sessionId }, limit })]. *)
Definition collection_get_limit (where_ : option string) (limit : nat)
    (c : Collection) : GetResult :=
  let selected :=
    firstn limit
      match where_ with
      | Some s => filter (whereSessionId s) c
      | None => c
      end in
  {| ids := map id selected;
     documents := map document selected;
     metadatas := map meta selected |}.

(** The two bodies of [/analyze]: [{ clauses }] with the parsed value, and
    [{ clauses: [], error }]. *)
Inductive AnalyzeBody (Clauses : Type) : Type :=
| Analysed (clauses : Clauses)
| NotAnalysed (error : string).

Arguments Analysed {Clauses} clauses.
Arguments NotAnalysed {Clauses} error.

Section Analysis.

Variable Clauses : Type.
Variable JSON_parse : string -> Completion Clauses.

(** The call of the generation service without sampling parameters. *)
Variable ollama_generate_plain : string -> Completion string.

Definition analysisPrompt (sampleText : string) : string :=
  "Analyze the following contract text and identify key legal clauses. Return a JSON array with objects containing: clauseName, clauseType, riskLevel (low/medium/high), and description."
  ++ newline ++ newline ++
  "CONTRACT TEXT:" ++ newline ++ sampleText ++ newline ++ newline ++
  "Return ONLY valid JSON, no other text.".

(** [app.post('/analyze', ...)]. *)
Definition post_analyze (sessionId : option string)
  : Collection -> Response (AnalyzeBody Clauses) * Collection :=
  tryCatch
    match sessionId with
    | Some s =>
        if String.eqb s "" then ret (Status 400 "Missing session ID.")
        else
          results <~ (fun c => (Normal (collection_get_limit (Some s) 5 c), c)) ;;
          match documents results with
          | [] => ret (Status 404 "Document not found.")
          | docs =>
              let sampleText := join (newline ++ newline) docs in
              response <~ lift (ollama_generate_plain (analysisPrompt sampleText)) ;;
              match JSON_parse response with
              | Normal clauses => ret (Json (Analysed clauses))
              | Throw _ =>
                  ret (Json (NotAnalysed "Could not parse legal analysis"))
              end
          end
    | None => ret (Status 400 "Missing session ID.")
    end.

End Analysis.

(** ** The in-memory version of the server

    The first [index.js] keeps the chunks of every upload in the object
    [memoryStorage]; its keys are the file names given by the upload
    middleware, kept here in insertion order. *)

Module InMemory.

Record StoredChunk : Type := mkStored {
  stored_text : string;
  stored_embedding : list number
}.

Record StoredData : Type := mkData {
  chunks : list StoredChunk;
  originalName : string
}.

Definition Storage : Type := JsMap StoredData.

Record UploadBody : Type := mkUploadBody {
  message : string;
  filename : string;
  chunkCount : nat;
  sessionId : string
}.

(** The loop [for (let i = 0; i < text.length; i += chunkSize)] of
    [splitTextIntoChunks], from the index [i] on, run for at most [fuel]
    rounds; [None] when the loop has not reached the end of the text by
    then.  With a positive [chunkSize] the loop ends within
    [String.length text] rounds.  With [chunkSize] 0, which the server never
    passes, the loop of the source pushes chunks until the array cannot grow
    and then throws a [RangeError]: this run is not represented. *)
Fixpoint splitFrom (fuel : nat) (text : string) (chunkSize i : nat)
  : option (list string) :=
  if (i <? String.length text)%nat then
    match fuel with
    | O => None
    | S fuel' =>
        option_map (cons (substring i chunkSize text))
                   (splitFrom fuel' text chunkSize (i + chunkSize))
    end
  else Some [].

(** [splitTextIntoChunks(text, chunkSize)] for a positive [chunkSize], with
    one round of the loop for every character of the text. *)
Definition splitTextIntoChunks (text : string) (chunkSize : nat)
  : option (list string) :=
  splitFrom (String.length text) text chunkSize 0.

Section Server.

Variable ollama_embeddings : string -> Completion (list number).
Variable extractTextFromFile : string -> string -> Completion string.

(** The loop of [/upload] over the chunks: every embedded chunk is pushed
    on the entry of the session at once, so that the chunks pushed before a
    failure stay. *)
Fixpoint embedChunks (key : string) (textChunks : list string)
    (memoryStorage : Storage) : Completion unit * Storage :=
  match textChunks with
  | [] => (Normal tt, memoryStorage)
  | chunk :: rest =>
      match getEmbedding ollama_embeddings chunk with
      | Throw e => (Throw e, memoryStorage)
      | Normal embedding =>
          embedChunks key rest
            (Map_update memoryStorage key
               (fun data =>
                  {| chunks :=
                       (chunks data ++
                        [ {| stored_text := chunk;
                             stored_embedding := embedding |} ])%list;
                     originalName := originalName data |}))
      end
  end.

(** [app.post('/upload', ...)].  The chunk size is the default of 500, for
    which the splitting loop ends, so that the result is never [None]. *)
Definition post_upload (file : option File) (memoryStorage : Storage)
  : option (Response UploadBody * Storage) :=
  match file with
  | None => Some (Status 400 "No file uploaded.", memoryStorage)
  | Some f =>
      match extractTextFromFile (path f) (originalname f) with
      | Throw e => Some (Status 500 (message_of e), memoryStorage)
      | Normal extractedText =>
          match splitTextIntoChunks extractedText 500 with
          | None => None
          | Some textChunks =>
              let started :=
                Map_set memoryStorage (file_filename f)
                  {| chunks := []; originalName := originalname f |} in
              match embedChunks (file_filename f) textChunks started with
              | (Throw e, stored) => Some (Status 500 (message_of e), stored)
              | (Normal _, stored) =>
                  Some (Json {| message :=
                                  "File uploaded, processed, and memorized by AI!";
                                filename := originalname f;
                                chunkCount := List.length textChunks;
                                sessionId := file_filename f |},
                        stored)
              end
          end
      end
  end.

(** [app.get('/sessions', ...)]: [Object.keys(memoryStorage)]. *)
Definition get_sessions (memoryStorage : Storage) : list string :=
  map fst memoryStorage.

End Server.

End InMemory.

(** A string without white space. *)
Fixpoint spaceFree (s : string) : bool :=
  match s with
  | EmptyString => true
  | String c s' => negb (isWhiteSpace c) && spaceFree s'
  end.

(** The sum of the chunk counts held by the map of [/sessions]. *)
Definition chunkTotal (m : JsMap Session) : nat :=
  list_sum (map session_chunkCount (Map_values m)).

(** ** Sample data *)

Module Sample.

(** An engine that accepts no pattern beyond the literal ones; the sample
    queries below consist of literal words. *)
Definition literalOnlyHost (pattern : string) : Completion RegExp :=
  Throw (SyntaxError "Invalid regular expression").

Definition metaOf (session file : string) (index length : nat) : Meta.t :=
  {| Meta.sessionId := Some session;
     Meta.filename := Some file;
     Meta.chunkIndex := Some (ofNat index);
     Meta.length := Some (ofNat length);
     Meta.position := Some (ofNat index);
     Meta.sentenceCount := Some 1;
     Meta.wordCount := Some 4 |}.

Definition firstChunk : Chunk :=
  {| text := "The termination clause applies.";
     distance := Some (1 # 4);
     metadata := Some (metaOf "s1" "A.pdf" 0 31) |}.

Definition secondChunk : Chunk :=
  {| text := "Payment terms and termination clause here";
     distance := Some (1 # 2);
     metadata := Some (metaOf "s1" "A.pdf" 1 1200) |}.

(** A candidate at cosine distance 0 from the question. *)
Definition exactChunk : Chunk :=
  {| text := "termination clause";
     distance := Some 0;
     metadata := Some (metaOf "s1" "A.pdf" 2 18) |}.

Definition candidates : list Chunk := [firstChunk; secondChunk; exactChunk].

Definition reranked : list ScoredChunk :=
  Eval vm_compute in
    match optimalReranking literalOnlyHost "termination clause" candidates 5 with
    | Normal out => out
    | Throw _ => []
    end.

Definition top : ScoredChunk :=
  Eval vm_compute in
    hd {| chunk := firstChunk; scores := Scores.mk "" "" 0 "" "" "";
          combinedScore := 0 |} reranked.

Definition record (key session file : string) (index : nat) : IndexedChunk :=
  {| id := key; embedding := [1; 0]; document := "text";
     meta := metaOf session file index 4 |}.

(** Two documents, the first with two chunks. *)
Definition collection : Collection :=
  [ record "s1_chunk_0" "s1" "A.pdf" 0;
    record "s2_chunk_0" "s2" "B.pdf" 0;
    record "s1_chunk_1" "s1" "A.pdf" 1 ].

(** A session whose two chunks carry different file names. *)
Definition disagreeing : Collection :=
  [ record "s1_chunk_0" "s1" "A.pdf" 0;
    record "s1_chunk_1" "s1" "B.pdf" 1 ].

Definition embeddings (text : string) : Completion (list number) :=
  Normal [1; 0].

Definition generate (prompt : string) (params : LlmParams)
  : Completion string :=
  Normal "The contract may be terminated on notice.".

(** A splitter that returns a short text as one document. *)
Definition splitter (text : string) : Completion (list string) :=
  Normal [text].

Definition extract (path name : string) : Completion string :=
  Normal "This agreement may be terminated on thirty days notice.".

Definition unlink (path : string) : Completion unit := Normal tt.

Definition add (request : AddRequest) (c : Collection) : Completion Collection :=
  Normal
    (c ++ map (fun entry =>
                 match entry with
                 | (key, vector, text, m) =>
                     {| id := key; embedding := vector; document := text;
                        meta := m |}
                 end)
              (List.combine
                 (List.combine
                    (List.combine (add_ids request) (add_embeddings request))
                    (add_documents request))
                 (add_metadatas request)))%list.

(** A search that finds nothing. *)
Definition emptyQuery (params : QueryParams) (c : Collection)
  : Completion QueryResult :=
  Normal {| documents0 := Some []; distances0 := []; metadatas0 := [] |}.

Definition contract : File :=
  {| path := "uploads/3f2a"; originalname := "contract.pdf";
     file_filename := "3f2a" |}.

Definition uploaded : Response UploadBody * Collection :=
  Eval vm_compute in
    post_upload embeddings splitter extract unlink add (Some contract)
      collection.

Definition uploadedBody : UploadBody :=
  Eval vm_compute in
    match fst uploaded with
    | Json body => body
    | Status _ _ => mkUploadBody "" "" None "" ""
    end.

Definition whatIsIt : AskRequest :=
  {| question := Some "what is it"; ask_sessionId := None |}.

(** An index that serves every [get] and every [delete]. *)
Definition get (where_ : option string) (c : Collection)
  : Completion GetResponse :=
  Normal (answerOf (collection_get where_ c)).

Definition delete (ids : list string) (c : Collection)
  : Completion Collection :=
  Normal (collection_delete ids c).

End Sample.

(** ** Further sample data *)

Module Fixture.

(** A search with one hit. *)
Definition oneHit (params : QueryParams) (c : Collection)
  : Completion QueryResult :=
  Normal {| documents0 := Some ["The termination clause applies."];
            distances0 := [1 # 4];
            metadatas0 := [Some (Sample.metaOf "s1" "A.pdf" 0 31)] |}.

Definition clauseQuestion : AskRequest :=
  {| question := Some "termination clause"; ask_sessionId := None |}.

Definition sectionQuestion : AskRequest :=
  {| question := Some "terms of section 3(b"; ask_sessionId := None |}.

(** The part of a file name from its last dot on. *)
Fixpoint lastDot (name : string) : option string :=
  match name with
  | EmptyString => None
  | String c rest =>
      match lastDot rest with
      | Some extension => Some extension
      | None => if Ascii.eqb c "." then Some name else None
      end
  end.

Definition extname (name : string) : string :=
  match lastDot name with
  | Some extension => extension
  | None => ""
  end.

Definition readFile (filePath : string) : Completion string :=
  Normal "%PDF-1.7".

Definition parsePdf (buffer : string) : Completion string :=
  Normal "This agreement may be terminated on thirty days notice.".

Definition rawText (filePath : string) : Completion string :=
  Normal "This agreement may be terminated on thirty days notice.".

Definition spreadsheet : File :=
  {| path := "uploads/77c1"; originalname := "fees.xlsx";
     file_filename := "77c1" |}.

Definition parseNothing (text : string) : Completion (list string) :=
  Throw (SyntaxError "Unexpected token").

Definition generatePlain (prompt : string) : Completion string :=
  Normal "The contract has a termination clause.".

(** A text of 1100 characters. *)
Definition longText : string :=
  Eval vm_compute in
    fold_right append "" (repeat "0123456789" 110).

Definition longExtract (filePath name : string) : Completion string :=
  Normal longText.

(** An embedding service that fails on the last 100 characters of
    [longText], its third chunk of 500. *)
Definition failOnThird (text : string) : Completion (list number) :=
  if String.eqb text (substring 1000 500 longText)
  then Throw (Error "connect ECONNREFUSED")
  else Normal [1; 0].

(** An index that cannot be reached. *)
Definition getRefused (where_ : option string) (c : Collection)
  : Completion GetResponse :=
  Throw (Error "Failed to connect to chromadb").

Definition deleteRefused (ids : list string) (c : Collection)
  : Completion Collection :=
  Throw (Error "Failed to connect to chromadb").

(** An index with one record that was stored without metadata. *)
Definition getWithoutMetadata (where_ : option string) (c : Collection)
  : Completion GetResponse :=
  Normal {| response_ids := Some ["legacy"];
            response_documents := Some ["text"];
            response_metadatas := Some [None] |}.

End Fixture.

(** * Properties *)

(** ** The model on concrete inputs *)

Example split_ws_runs : split_ws " a  b " = [""; "a"; "b"; ""].
Proof. reflexivity. Qed.

Example split_ws_empty : split_ws "" = [""].
Proof. reflexivity. Qed.

Example trim_both_ends : trim "  due on  notice " = "due on  notice".
Proof. reflexivity. Qed.

Example sentenceRuns_counts_runs :
  sentenceRuns false "Really?! Yes. No..." = 3%nat.
Proof. reflexivity. Qed.

Example queryWords_drops_short_words :
  queryWords "What is the Termination clause of it?" =
  ["what"; "the"; "termination"; "clause"; "it?"].
Proof. reflexivity. Qed.

Example queryBigrams_of_three : queryBigrams ["late"; "payment"; "fee"] =
  ["late payment"; "payment fee"].
Proof. reflexivity. Qed.

Example queryTrigrams_of_three : queryTrigrams ["late"; "payment"; "fee"] =
  ["late payment fee"].
Proof. reflexivity. Qed.

Example literal_matches_do_not_overlap host :
  termFrequency host "aaaaa" "aa" = Normal 2%nat.
Proof. reflexivity. Qed.

Example class_and_escape_are_balanced :
  unbalanced 0 false false "[(]\(" = false.
Proof. reflexivity. Qed.

Example unclosed_class_is_unbalanced : unbalanced 0 false false "cl[ause" = true.
Proof. reflexivity. Qed.

Example toFixed2_rounds : toFixed2 (87655 # 10000) = "8.77".
Proof. reflexivity. Qed.

Example toFixed2_negative : toFixed2 (- (3 # 2)) = "-1.50".
Proof. reflexivity. Qed.

Example slice0_negative_end : slice0 [1; 2; 3]%nat (-1) = [1; 2]%nat.
Proof. reflexivity. Qed.

Example sample_ranking :
  map (fun s => (text (chunk s), Scores.combined (scores s))) Sample.reranked =
  [ ("The termination clause applies.", "6.28");
    ("Payment terms and termination clause here", "5.39");
    ("termination clause", "3.06") ].
Proof. reflexivity. Qed.

Example sample_sessions :
  fst (get_sessions Sample.get Sample.collection) =
  Json [ {| session_sessionId := "s1"; session_filename := Some "A.pdf";
            session_chunkCount := 2 |};
         {| session_sessionId := "s2"; session_filename := Some "B.pdf";
            session_chunkCount := 1 |} ].
Proof. reflexivity. Qed.

(** ** Completions and loops *)

Lemma mapM_length {A B : Type} (f : A -> Completion B) (l : list A)
    (out : list B) :
  mapM f l = Normal out -> List.length out = List.length l.
Proof.
  revert out; induction l as [|x xs IH]; simpl; intros out H.
  - now inversion H.
  - destruct (f x); simpl in H; [|discriminate].
    destruct (mapM f xs); simpl in H; [|discriminate].
    inversion H; subst; simpl; f_equal; now apply IH.
Qed.

Lemma mapM_In {A B : Type} (f : A -> Completion B) (l : list A)
    (out : list B) (y : B) :
  mapM f l = Normal out -> In y out -> exists x, In x l /\ f x = Normal y.
Proof.
  revert out; induction l as [|x xs IH]; simpl; intros out H Hy.
  - inversion H; subst; contradiction.
  - destruct (f x) as [v|] eqn:Ef; simpl in H; [|discriminate].
    destruct (mapM f xs) as [vs|]; simpl in H; [|discriminate].
    inversion H; subst; destruct Hy as [->|Hy].
    + exists x; auto.
    + destruct (IH vs eq_refl Hy) as [x' [Hx' Hf]]; exists x'; auto.
Qed.

Lemma mapM_total {A B : Type} (f : A -> Completion B) (l : list A) :
  (forall x, In x l -> exists y, f x = Normal y) ->
  exists out, mapM f l = Normal out.
Proof.
  induction l as [|x xs IH]; simpl; intros H.
  - now exists [].
  - destruct (H x (or_introl eq_refl)) as [y ->].
    destruct IH as [ys ->]; [intros; apply H; auto|].
    now exists (y :: ys).
Qed.

Lemma mapM_Throw_head {A B : Type} (f : A -> Completion B) (x : A)
    (xs : list A) (e : JsError) :
  f x = Throw e -> mapM f (x :: xs) = Throw e.
Proof. intros H; simpl; now rewrite H. Qed.

(** ** The stable sort *)

Lemma insertBy_perm {A : Type} (cmp : A -> A -> number) (x : A) (l : list A) :
  Permutation (x :: l) (insertBy cmp x l).
Proof.
  induction l as [|y l IH]; simpl; [reflexivity|].
  destruct (Qlt_le_dec 0 (cmp x y)); [|reflexivity].
  rewrite perm_swap; now apply perm_skip.
Qed.

Lemma sortBy_perm {A : Type} (cmp : A -> A -> number) (l : list A) :
  Permutation l (sortBy cmp l).
Proof.
  induction l as [|x l IH]; simpl; [constructor|].
  rewrite <- insertBy_perm; now apply perm_skip.
Qed.

Lemma sortBy_length {A : Type} (cmp : A -> A -> number) (l : list A) :
  List.length (sortBy cmp l) = List.length l.
Proof. symmetry; apply Permutation_length, sortBy_perm. Qed.

(** Descending order of the combined scores. *)
Definition descending (x y : ScoredChunk) : Prop :=
  combinedScore y <= combinedScore x.

Lemma insertBy_descending (x : ScoredChunk) (l : list ScoredChunk) :
  Sorted descending l -> Sorted descending (insertBy byCombinedScore x l).
Proof.
  induction l as [|y l IH]; simpl; intros Hs.
  - repeat constructor.
  - inversion Hs as [|? ? Hl Hhd]; subst.
    unfold byCombinedScore at 1.
    destruct (Qlt_le_dec 0 (combinedScore y - combinedScore x)) as [Hlt|Hle].
    + constructor; [now apply IH|].
      destruct l as [|z l]; simpl.
      * constructor; unfold descending; lra.
      * unfold byCombinedScore at 1.
        destruct (Qlt_le_dec 0 (combinedScore z - combinedScore x)).
        -- inversion Hhd; subst; now constructor.
        -- constructor; unfold descending; lra.
    + constructor; [assumption|].
      constructor; unfold descending; lra.
Qed.

Lemma sortBy_descending (l : list ScoredChunk) :
  Sorted descending (sortBy byCombinedScore l).
Proof.
  induction l as [|x l IH]; simpl; [constructor|].
  now apply insertBy_descending.
Qed.

(** The chunks with a given combined score. *)
Definition hasScore (v : number) (s : ScoredChunk) : bool :=
  Qeq_bool (combinedScore s) v.

Lemma insertBy_stable (v : number) (x : ScoredChunk) (l : list ScoredChunk) :
  filter (hasScore v) (insertBy byCombinedScore x l) =
  filter (hasScore v) (x :: l).
Proof.
  induction l as [|y l IH]; [reflexivity|].
  cbn [insertBy]; unfold byCombinedScore at 1.
  destruct (Qlt_le_dec 0 (combinedScore y - combinedScore x)) as [Hlt|Hle];
    [|reflexivity].
  cbn [filter] in *; rewrite IH.
  destruct (hasScore v x) eqn:Ex; [|reflexivity].
  destruct (hasScore v y) eqn:Ey; [|reflexivity].
  unfold hasScore in Ex, Ey.
  apply Qeq_bool_iff in Ex; apply Qeq_bool_iff in Ey; lra.
Qed.

Lemma sortBy_stable (v : number) (l : list ScoredChunk) :
  filter (hasScore v) (sortBy byCombinedScore l) = filter (hasScore v) l.
Proof.
  induction l as [|x l IH]; [reflexivity|].
  cbn [sortBy]; rewrite insertBy_stable; cbn [filter]; now rewrite IH.
Qed.

Lemma slice0_firstn {A : Type} (l : list A) (k : nat) :
  slice0 l (Z.of_nat k) = firstn k l.
Proof.
  unfold slice0.
  destruct (Z.ltb_spec (Z.of_nat k) 0); [lia|].
  now rewrite Nat2Z.id.
Qed.

Lemma slice0_incl {A : Type} (l : list A) (e : Z) (x : A) :
  In x (slice0 l e) -> In x l.
Proof.
  assert (Hfirst : forall k, In x (firstn k l) -> In x l).
  { intros k H; rewrite <- (firstn_skipn k l); apply in_or_app; now left. }
  unfold slice0; destruct (e <? 0)%Z; apply Hfirst.
Qed.

Lemma Sorted_firstn {A : Type} (R : A -> A -> Prop) (k : nat) (l : list A) :
  Sorted R l -> Sorted R (firstn k l).
Proof.
  revert l; induction k as [|k IH]; intros l Hs; simpl; [constructor|].
  destruct l as [|x l]; [constructor|].
  inversion Hs as [|? ? Hl Hhd]; subst.
  constructor; [now apply IH|].
  destruct k; simpl; [constructor|].
  destruct l; [constructor|]; inversion Hhd; subst; now constructor.
Qed.

Lemma filter_firstn {A : Type} (p : A -> bool) (k : nat) (l : list A) :
  exists m, filter p (firstn k l) = firstn m (filter p l).
Proof.
  revert l; induction k as [|k IH]; intros l; simpl.
  - now exists 0%nat.
  - destruct l as [|x l]; simpl; [now exists 0%nat|].
    destruct (IH l) as [m Hm]; destruct (p x).
    + exists (S m); simpl; now rewrite Hm.
    + now exists m.
Qed.

(** ** Scoring *)

Lemma ofNat_nonneg (n : nat) : 0 <= ofNat n.
Proof.
  unfold ofNat; change 0 with (inject_Z 0); rewrite <- Zle_Qle; lia.
Qed.

Lemma ofNat_le (n m : nat) : (n <= m)%nat -> ofNat n <= ofNat m.
Proof. intros H; unfold ofNat; rewrite <- Zle_Qle; lia. Qed.

(** The length normalisation [k1 * (1 - b + b * (docLength / avgDocLength))]
    is positive. *)
Lemma normalisation_pos (docLength : number) :
  0 <= docLength ->
  0 < k1 * (1 - b + b * (docLength / avgDocLength)).
Proof.
  intros H; unfold k1, b, avgDocLength.
  assert (Hd : 0 <= docLength / 300).
  { apply Qle_shift_div_l; lra. }
  set (r := docLength / 300) in *; lra.
Qed.

Lemma normalizedTF_le (tf tf' docLength : number) :
  0 <= tf -> tf <= tf' -> 0 <= docLength ->
  normalizedTF tf docLength <= normalizedTF tf' docLength.
Proof.
  intros H0 Hle Hd; unfold normalizedTF.
  pose proof (normalisation_pos docLength Hd) as Hc.
  set (c := k1 * (1 - b + b * (docLength / avgDocLength))) in *.
  apply Qle_shift_div_l; [lra|].
  unfold Qdiv; rewrite <- Qmult_assoc, (Qmult_comm (/ _)), Qmult_assoc.
  apply Qle_shift_div_r; [lra|].
  unfold k1; nra.
Qed.

Lemma termFrequency_Normal host chunkText word n :
  termFrequency host chunkText word = Normal n ->
  forall acc docLength,
    bm25Step host chunkText docLength acc word =
    Normal (acc + normalizedTF (ofNat n) docLength * 2).
Proof. intros H acc docLength; unfold bm25Step; now rewrite H. Qed.

(** The loop over the query words, run on two texts whose term frequencies
    are ordered word by word. *)
Lemma bm25_loop_le host words t t' docLength :
  0 <= docLength ->
  (forall w, In w words ->
     exists n n', termFrequency host t w = Normal n /\
                  termFrequency host t' w = Normal n' /\ (n <= n')%nat) ->
  forall acc acc', acc <= acc' ->
  exists s s',
    foldM (bm25Step host t docLength) acc words = Normal s /\
    foldM (bm25Step host t' docLength) acc' words = Normal s' /\ s <= s'.
Proof.
  intros Hd; induction words as [|w ws IH]; intros Htf acc acc' Hacc.
  - exists acc, acc'; repeat split; trivial.
  - destruct (Htf w (or_introl eq_refl)) as [n [n' [Hn [Hn' Hle]]]].
    cbn [foldM].
    rewrite (termFrequency_Normal _ _ _ _ Hn), (termFrequency_Normal _ _ _ _ Hn').
    cbn [bind]; apply IH.
    + intros w' Hw'; apply Htf; now right.
    + pose proof (normalizedTF_le (ofNat n) (ofNat n') docLength
                    (ofNat_nonneg n) (ofNat_le n n' Hle) Hd).
      lra.
Qed.

Lemma range_In (n : nat) (from z : Z) :
  (from <= z < from + Z.of_nat n)%Z -> In z (Binary64.range n from).
Proof.
  revert from; induction n as [|n IH]; intros from Hz; [lia|].
  cbn [Binary64.range]; destruct (Z.eq_dec from z) as [->|Hne]; [now left|].
  right; apply IH; lia.
Qed.

(** The steps of the term frequency from 0 to 1201 in the texts of 0 to 601
    words, evaluated on the doubles. *)
Lemma stepHolds_checked :
  forallb (fun docLength =>
             forallb (Binary64.stepHolds docLength) (Binary64.range 1201 0))
          (Binary64.range 602 0) = true.
Proof. vm_compute; reflexivity. Qed.

(** The positions from 0 to 5000, evaluated on the doubles. *)
Lemma positionHolds_checked :
  forallb Binary64.positionHolds (Binary64.range (Z.to_nat 5001) 0) = true.
Proof. vm_compute; reflexivity. Qed.

(** C5, as the code has it.  Computed exactly, the bm25 score is monotone:
    between two candidate texts of the same word count, if no query term
    matches less often in the second than in the first, the bm25 score of
    the second is not smaller, and the normalised term frequency
    tf*(k1+1)/(tf + k1*(1 - b + b*(docLen/avgDocLen))) with k1 = 1.5,
    b = 0.75 and avgDocLen = 300 is non-decreasing in tf.  On the doubles
    of the runtime one more match lowers neither the normalised term
    frequency nor what the term adds to the score as long as the term
    matches at most 1200 times in a text of at most 601 words, which is the
    range of a chunk of 1200 characters. *)
Theorem bm25Score_monotone_exactly_and_on_chunks host words t t' :
  List.length (split_ws t) = List.length (split_ws t') ->
  (forall w, In w words ->
     exists n n', termFrequency host t w = Normal n /\
                  termFrequency host t' w = Normal n' /\ (n <= n')%nat) ->
  (exists s s',
     bm25Score host words t = Normal s /\
     bm25Score host words t' = Normal s' /\ s <= s') /\
  (forall tf tf' docLen : nat, (tf <= tf')%nat ->
     normalizedTF (ofNat tf) (ofNat docLen) ==
       ofNat tf * ((15 # 10) + 1) /
       (ofNat tf + (15 # 10) * (1 - (75 # 100) + (75 # 100) * (ofNat docLen / 300))) /\
     normalizedTF (ofNat tf) (ofNat docLen) <=
     normalizedTF (ofNat tf') (ofNat docLen)) /\
  (forall tf docLen : Z, (0 <= tf <= 1200)%Z -> (0 <= docLen <= 601)%Z ->
     PrimFloat.leb
       (Binary64.normalizedTF (Binary64.ofZ tf) (Binary64.ofZ docLen))
       (Binary64.normalizedTF (Binary64.ofZ (tf + 1)) (Binary64.ofZ docLen))
       = true /\
     PrimFloat.leb
       (Binary64.bm25Step (Binary64.ofZ 0) (Binary64.ofZ tf)
          (Binary64.ofZ docLen))
       (Binary64.bm25Step (Binary64.ofZ 0) (Binary64.ofZ (tf + 1))
          (Binary64.ofZ docLen))
       = true).
Proof.
  intros Hlen Htf; split; [|split].
  - unfold bm25Score; rewrite <- Hlen.
    apply bm25_loop_le; [apply ofNat_nonneg|assumption|lra].
  - intros tf tf' docLen Hle; split; [reflexivity|].
    apply normalizedTF_le;
      [apply ofNat_nonneg|now apply ofNat_le|apply ofNat_nonneg].
  - intros tf docLen Htf' Hdoc.
    pose proof stepHolds_checked as Hall.
    rewrite forallb_forall in Hall.
    specialize (Hall docLen (range_In 602 0 docLen ltac:(lia))).
    rewrite forallb_forall in Hall.
    specialize (Hall tf (range_In 1201 0 tf ltac:(lia))).
    unfold Binary64.stepHolds in Hall; cbv zeta in Hall.
    apply andb_true_iff in Hall; exact Hall.
Qed.

Lemma bm25Score_monotone_exactly_and_on_chunks_witness :
  (exists s s',
     bm25Score Sample.literalOnlyHost ["rent"] "rent due now" = Normal s /\
     bm25Score Sample.literalOnlyHost ["rent"] "rent rent rent" = Normal s' /\
     s <= s') /\
  (forall tf tf' docLen : nat, (tf <= tf')%nat ->
     normalizedTF (ofNat tf) (ofNat docLen) ==
       ofNat tf * ((15 # 10) + 1) /
       (ofNat tf + (15 # 10) * (1 - (75 # 100) + (75 # 100) * (ofNat docLen / 300))) /\
     normalizedTF (ofNat tf) (ofNat docLen) <=
     normalizedTF (ofNat tf') (ofNat docLen)) /\
  PrimFloat.leb
    (Binary64.bm25Step (Binary64.ofZ 0) (Binary64.ofZ 1) (Binary64.ofZ 3))
    (Binary64.bm25Step (Binary64.ofZ 0) (Binary64.ofZ 2) (Binary64.ofZ 3))
    = true.
Proof.
  destruct (bm25Score_monotone_exactly_and_on_chunks
              Sample.literalOnlyHost ["rent"] "rent due now" "rent rent rent")
    as [Hscore [Hexact Hdouble]].
  - reflexivity.
  - intros w [<-|[]]; exists 1%nat, 3%nat; repeat split; lia.
  - split; [exact Hscore|split; [exact Hexact|]].
    apply (Hdouble 1%Z 3%Z); lia.
Defined.

(** Counterexample to C5 as the specification has it: on the doubles of the
    runtime, in a text of 3 words, the term that matches 67108864 times
    has a smaller normalised term frequency, and adds less to the bm25
    score, than the term that matches 67108863 times. *)
Lemma bm25Score_decreases_on_doubles :
  PrimFloat.ltb
    (Binary64.normalizedTF (Binary64.ofZ 67108864) (Binary64.ofZ 3))
    (Binary64.normalizedTF (Binary64.ofZ 67108863) (Binary64.ofZ 3)) = true /\
  PrimFloat.ltb
    (Binary64.bm25Step (Binary64.ofZ 0) (Binary64.ofZ 67108864) (Binary64.ofZ 3))
    (Binary64.bm25Step (Binary64.ofZ 0) (Binary64.ofZ 67108863) (Binary64.ofZ 3))
    = true.
Proof. split; vm_compute; reflexivity. Qed.

(** ** The reranker *)

Lemma scoreChunk_Normal host words c sc :
  scoreChunk host words c = Normal sc ->
  exists bm25,
    bm25Score host words (toLowerCase (text c)) = Normal bm25 /\
    chunk sc = c /\
    combinedScore sc =
      combine (semanticScore c) bm25
        (phraseScore words (toLowerCase (text c)))
        (positionScore c) (lengthScore c) /\
    Scores.semantic (scores sc) = toFixed2 (semanticScore c) /\
    Scores.position (scores sc) = toFixed2 (positionScore c).
Proof.
  unfold scoreChunk; intros H.
  destruct (bm25Score host words (toLowerCase (text c))) as [bm25|];
    cbn [bind] in H; [|discriminate].
  inversion H; subst; clear H; cbn.
  exists bm25; repeat split.
Qed.

Lemma optimalReranking_In host query chunks topK out sc :
  optimalReranking host query chunks topK = Normal out -> In sc out ->
  exists c, In c chunks /\ scoreChunk host (queryWords query) c = Normal sc.
Proof.
  unfold optimalReranking; intros H Hin.
  destruct (mapM (scoreChunk host (queryWords query)) chunks) as [scored|] eqn:E;
    cbn [bind] in H; [|discriminate].
  inversion H; subst; clear H.
  apply slice0_incl in Hin.
  apply (Permutation_in _ (Permutation_sym (sortBy_perm _ _))) in Hin.
  exact (mapM_In _ _ _ _ E Hin).
Qed.

(** C1. Every chunk returned by the reranker comes from a candidate, and its
    combined score is 0.45 times the semantic score plus 0.30 times the bm25
    score plus 0.15 times the phrase score plus 0.05 times the position
    score plus 0.05 times the length score of that candidate, whatever the
    query, the candidates and topK. *)
Theorem combinedScore_weighted_sum host query chunks topK out sc :
  optimalReranking host query chunks topK = Normal out -> In sc out ->
  In (chunk sc) chunks /\
  exists bm25,
    bm25Score host (queryWords query) (toLowerCase (text (chunk sc))) =
      Normal bm25 /\
    combinedScore sc ==
      (45 # 100) * semanticScore (chunk sc) + (30 # 100) * bm25 +
      (15 # 100) *
        phraseScore (queryWords query) (toLowerCase (text (chunk sc))) +
      (5 # 100) * positionScore (chunk sc) +
      (5 # 100) * lengthScore (chunk sc).
Proof.
  intros H Hin.
  destruct (optimalReranking_In _ _ _ _ _ _ H Hin) as [c [Hc Hsc]].
  destruct (scoreChunk_Normal _ _ _ _ Hsc) as [bm25 [Hb [Hchunk [Hcomb _]]]].
  rewrite Hchunk; split; [assumption|].
  exists bm25; split; [assumption|].
  rewrite Hcomb; unfold combine; ring.
Qed.

Lemma combinedScore_weighted_sum_witness :
  In (chunk Sample.top) Sample.candidates /\
  exists bm25,
    bm25Score Sample.literalOnlyHost (queryWords "termination clause")
      (toLowerCase (text (chunk Sample.top))) = Normal bm25 /\
    combinedScore Sample.top ==
      (45 # 100) * semanticScore (chunk Sample.top) + (30 # 100) * bm25 +
      (15 # 100) *
        phraseScore (queryWords "termination clause")
          (toLowerCase (text (chunk Sample.top))) +
      (5 # 100) * positionScore (chunk Sample.top) +
      (5 # 100) * lengthScore (chunk Sample.top).
Proof.
  apply (combinedScore_weighted_sum Sample.literalOnlyHost
           "termination clause" Sample.candidates 5 Sample.reranked Sample.top).
  - vm_compute; reflexivity.
  - left; reflexivity.
Defined.

(** When every query word compiles, the reranker returns, and what it
    returns is the first [k] chunks of the candidates sorted by descending
    combined score, chunks of equal score keeping their retrieval order. *)
Lemma optimalReranking_sorted_topK host query chunks (k : nat) :
  (forall w, In w (queryWords query) -> exists re, RegExp_new host w = Normal re) ->
  exists out scored,
    optimalReranking host query chunks (Z.of_nat k) = Normal out /\
    mapM (scoreChunk host (queryWords query)) chunks = Normal scored /\
    List.length out = Nat.min k (List.length chunks) /\
    Sorted descending out /\
    (forall v, exists m,
       filter (hasScore v) out = firstn m (filter (hasScore v) scored)).
Proof.
  intros Hre.
  assert (Hwords : forall t acc, exists s,
            foldM (bm25Step host t (ofNat (List.length (split_ws t)))) acc
                  (queryWords query) = Normal s).
  { intros t; induction (queryWords query) as [|w ws IH]; intros acc.
    - now exists acc.
    - destruct (Hre w (or_introl eq_refl)) as [re Hw].
      cbn [foldM]; unfold bm25Step at 1, termFrequency; rewrite Hw; cbn [bind].
      apply IH; intros w' Hw'; apply Hre; now right. }
  destruct (mapM_total (scoreChunk host (queryWords query)) chunks) as [scored Hs].
  { intros c _; unfold scoreChunk, bm25Score.
    destruct (Hwords (toLowerCase (text c)) 0) as [s ->]; cbn [bind].
    eexists; reflexivity. }
  unfold optimalReranking; rewrite Hs; cbn [bind].
  eexists; exists scored; split; [reflexivity|]; split; [reflexivity|].
  rewrite slice0_firstn; repeat split.
  - rewrite length_firstn, sortBy_length, (mapM_length _ _ _ Hs); reflexivity.
  - apply Sorted_firstn, sortBy_descending.
  - intros v; rewrite <- (sortBy_stable v scored); apply filter_firstn.
Qed.

Lemma foldM_Throw {A S : Type} (f : S -> A -> Completion S) (w : A)
    (l : list A) :
  In w l -> (forall s, exists e, f s w = Throw e) ->
  forall s, exists e, foldM f s l = Throw e.
Proof.
  intros Hin Hw; induction l as [|x xs IH]; intros s; [contradiction|].
  cbn [foldM]; destruct (f s x) as [s'|e] eqn:E; cbn [bind].
  - destruct Hin as [->|Hin]; [|now apply IH].
    destruct (Hw s) as [e He]; congruence.
  - now exists e.
Qed.

Lemma RegExp_new_unbalanced host w :
  unbalanced 0 false false w = true ->
  RegExp_new host w = Throw (SyntaxError ("Invalid regular expression: /" ++ w ++ "/")).
Proof. intros H; unfold RegExp_new; now rewrite H. Qed.

(** C2. The claim fails where a query word is not a regular expression: for
    the question below no chunk is returned, whatever the candidates (at
    least one), the engine and topK. *)
Theorem optimalReranking_unclosed_group host c chunks topK :
  optimalReranking host "terms of section 3(b" (c :: chunks) topK =
  Throw (SyntaxError "Invalid regular expression: /3(b/").
Proof. reflexivity. Qed.

(** C10. The reranker throws as soon as there is a candidate and one of the
    query words has an unclosed group or character class, an unopened
    closing parenthesis or a trailing backslash: the word is compiled as a
    regular expression as it stands. *)
Theorem optimalReranking_throws host query c chunks topK w :
  In w (queryWords query) -> unbalanced 0 false false w = true ->
  exists e, optimalReranking host query (c :: chunks) topK = Throw e.
Proof.
  intros Hin Hw.
  assert (Hc : exists e, scoreChunk host (queryWords query) c = Throw e).
  { unfold scoreChunk, bm25Score.
    destruct (foldM_Throw
                (bm25Step host (toLowerCase (text c))
                   (ofNat (List.length (split_ws (toLowerCase (text c))))))
                w (queryWords query) Hin) with (s := 0) as [e He].
    - intros s; unfold bm25Step, termFrequency.
      rewrite (RegExp_new_unbalanced host w Hw); eexists; reflexivity.
    - rewrite He; now exists e. }
  destruct Hc as [e He]; exists e.
  unfold optimalReranking; now rewrite (mapM_Throw_head _ _ _ _ He).
Qed.

Lemma optimalReranking_throws_witness :
  exists e,
    optimalReranking Sample.literalOnlyHost "((((" [Sample.firstChunk] 5 =
    Throw e.
Proof.
  apply (optimalReranking_throws Sample.literalOnlyHost "(((("
           Sample.firstChunk [] 5 "((((").
  - left; reflexivity.
  - reflexivity.
Defined.

(** Away from zero the guards of the semantic and the position score let the
    formulas through. *)
Lemma semanticScore_nonzero c d :
  distance c = Some d -> ~ d == 0 -> semanticScore c = (1 - d) * 10.
Proof.
  intros Hd Hnz; unfold semanticScore, truthy; rewrite Hd.
  destruct (Qeq_bool d 0) eqn:E; [|reflexivity].
  apply Qeq_bool_iff in E; contradiction.
Qed.

Lemma positionScore_nonzero c p :
  metadata_position c = Some p -> ~ p == 0 ->
  positionScore c = Math_max 0 (3 - p * (1 # 10)).
Proof.
  intros Hp Hnz; unfold positionScore, truthy; rewrite Hp.
  destruct (Qeq_bool p 0) eqn:E; [|reflexivity].
  apply Qeq_bool_iff in E; contradiction.
Qed.

Lemma Math_max_spec (a x : number) : Math_max a x == Qmax a x.
Proof.
  unfold Math_max; destruct (Qle_bool a x) eqn:E.
  - apply Qle_bool_iff in E; symmetry; now apply Q.max_r.
  - symmetry; apply Q.max_l.
    destruct (Qlt_le_dec x a) as [H|H]; [lra|].
    apply Qle_bool_iff in H; congruence.
Qed.

(** C3. A candidate at cosine distance 0 leaves the reranker with the
    semantic score 0.00, not the (1 - 0) * 10 = 10 of the formula: the guard
    [chunk.distance ? ... : 0] takes the distance 0 for a missing one. *)
Theorem semantic_score_of_distance_zero host query chunks topK out sc d :
  optimalReranking host query chunks topK = Normal out -> In sc out ->
  distance (chunk sc) = Some d -> d == 0 ->
  semanticScore (chunk sc) = 0 /\
  Scores.semantic (scores sc) = "0.00" /\
  ~ semanticScore (chunk sc) == (1 - d) * 10.
Proof.
  intros H Hin Hd Hz.
  destruct (optimalReranking_In _ _ _ _ _ _ H Hin) as [c [_ Hsc]].
  destruct (scoreChunk_Normal _ _ _ _ Hsc) as [_ [_ [Hchunk [_ [Hsem _]]]]].
  assert (Hs : semanticScore (chunk sc) = 0).
  { unfold semanticScore, truthy; rewrite Hd.
    apply Qeq_bool_iff in Hz; now rewrite Hz. }
  rewrite Hsem, <- Hchunk, Hs; repeat split; lra.
Qed.

Lemma semantic_score_of_distance_zero_witness :
  semanticScore Sample.exactChunk = 0 /\
  Scores.semantic (scores (nth 2 Sample.reranked Sample.top)) = "0.00" /\
  ~ semanticScore Sample.exactChunk == (1 - 0) * 10.
Proof.
  apply (semantic_score_of_distance_zero Sample.literalOnlyHost
           "termination clause" Sample.candidates 5 Sample.reranked
           (nth 2 Sample.reranked Sample.top) 0).
  - vm_compute; reflexivity.
  - right; right; left; reflexivity.
  - reflexivity.
  - reflexivity.
Defined.

(** C4. The first chunk of a document (position 0) leaves the reranker with
    the position score 0.00, not the max(0, 3 - 0.1 * 0) = 3 of the formula:
    the guard [chunk.metadata?.position ? ... : 0] takes the position 0 for
    a missing one. *)
Theorem position_score_of_first_chunk host query chunks topK out sc p :
  optimalReranking host query chunks topK = Normal out -> In sc out ->
  metadata_position (chunk sc) = Some p -> p == 0 ->
  positionScore (chunk sc) = 0 /\
  Scores.position (scores sc) = "0.00" /\
  ~ positionScore (chunk sc) == Qmax 0 (3 - (1 # 10) * p).
Proof.
  intros H Hin Hp Hz.
  destruct (optimalReranking_In _ _ _ _ _ _ H Hin) as [c [_ Hsc]].
  destruct (scoreChunk_Normal _ _ _ _ Hsc) as [_ [_ [Hchunk [_ [_ Hpos]]]]].
  assert (Hs : positionScore (chunk sc) = 0).
  { unfold positionScore, truthy; rewrite Hp.
    apply Qeq_bool_iff in Hz; now rewrite Hz. }
  rewrite Hpos, <- Hchunk, Hs; repeat split.
  rewrite Q.max_r; lra.
Qed.

Lemma position_score_of_first_chunk_witness :
  positionScore Sample.firstChunk = 0 /\
  Scores.position (scores Sample.top) = "0.00" /\
  ~ positionScore Sample.firstChunk == Qmax 0 (3 - (1 # 10) * 0).
Proof.
  apply (position_score_of_first_chunk Sample.literalOnlyHost
           "termination clause" Sample.candidates 5 Sample.reranked
           Sample.top 0).
  - vm_compute; reflexivity.
  - left; reflexivity.
  - reflexivity.
  - reflexivity.
Defined.

(** ** Questions *)

Lemma optimalReranking_nil host query topK :
  optimalReranking host query [] topK = Normal [].
Proof.
  unfold optimalReranking, slice0; cbn.
  destruct (topK <? 0)%Z; now rewrite firstn_nil.
Qed.

Lemma optimalReranking_default_nonempty host query c chunks :
  optimalReranking host query (c :: chunks) OPTIMAL_RETRIEVAL_afterReranking
  <> Normal [].
Proof.
  unfold optimalReranking; intros H.
  destruct (mapM (scoreChunk host (queryWords query)) (c :: chunks))
    as [scored|] eqn:E; cbn [bind] in H; [|discriminate].
  inversion H as [Hs]; clear H.
  apply (f_equal (@List.length _)) in Hs.
  change OPTIMAL_RETRIEVAL_afterReranking with (Z.of_nat 5) in Hs.
  rewrite slice0_firstn, length_firstn, sortBy_length,
    (mapM_length _ _ _ E) in Hs.
  cbn in Hs; lia.
Qed.

(** C6. Reranking no candidate returns the empty sequence, for every query
    and topK and without an exception; with the five chunks that [/ask]
    keeps, the reranker returns nothing only then; and when the search of
    the index for a question finds no document, [/ask] answers with the
    fixed sentence and an empty list of sources. *)
Theorem empty_retrieval_is_answered host emb gen search req coll q e results :
  question req = Some q -> q <> "" ->
  emb q = Normal e ->
  search {| queryEmbeddings := [e];
            nResults := OPTIMAL_RETRIEVAL_initialFetch;
            where_sessionId := if truthyString (ask_sessionId req)
                               then ask_sessionId req else None |} coll
    = Normal results ->
  documents0 results = None \/ documents0 results = Some [] ->
  (forall query topK, optimalReranking host query [] topK = Normal []) /\
  (forall query chunks,
     optimalReranking host query chunks OPTIMAL_RETRIEVAL_afterReranking
       = Normal [] -> chunks = []) /\
  exists body,
    post_ask host emb gen search req coll = (Json body, coll) /\
    answer body =
      "I cannot find relevant information in the document(s) to answer this question." /\
    sources body = [].
Proof.
  intros Hq Hne He Hs Hdocs; split; [|split].
  - intros; apply optimalReranking_nil.
  - intros query [|c chunks] H; [reflexivity|].
    now apply optimalReranking_default_nonempty in H.
  - unfold post_ask, tryCatch; rewrite Hq.
    destruct (String.eqb_spec q ""); [contradiction|].
    unfold bindH at 1, lift, getEmbedding; rewrite He.
    unfold bindH at 1; rewrite Hs.
    destruct Hdocs as [-> | ->]; cbn; eexists; repeat split.
Qed.

Lemma empty_retrieval_is_answered_witness :
  (forall query topK,
     optimalReranking Sample.literalOnlyHost query [] topK = Normal []) /\
  (forall query chunks,
     optimalReranking Sample.literalOnlyHost query chunks
       OPTIMAL_RETRIEVAL_afterReranking = Normal [] -> chunks = []) /\
  exists body,
    post_ask Sample.literalOnlyHost Sample.embeddings Sample.generate
      Sample.emptyQuery Sample.whatIsIt Sample.collection
      = (Json body, Sample.collection) /\
    answer body =
      "I cannot find relevant information in the document(s) to answer this question." /\
    sources body = [].
Proof.
  apply (empty_retrieval_is_answered Sample.literalOnlyHost Sample.embeddings
           Sample.generate Sample.emptyQuery Sample.whatIsIt Sample.collection
           "what is it" [1; 0]
           {| documents0 := Some []; distances0 := []; metadatas0 := [] |}).
  - reflexivity.
  - discriminate.
  - reflexivity.
  - reflexivity.
  - right; reflexivity.
Defined.

(** ** Uploads *)

Lemma post_upload_Json emb split extract unlink add file coll body coll' :
  post_upload emb split extract unlink add (Some file) coll = (Json body, coll') ->
  exists text,
    extract (path file) (originalname file) = Normal text /\
    storeChunks emb unlink add file
      (PromiseValue (optimalChunkText split text)) coll
    = (Normal (Json body), coll').
Proof.
  unfold post_upload, tryCatch, bindH at 1, lift; intros H.
  destruct (extract (path file) (originalname file)) as [text|]; [|discriminate].
  exists text; split; [reflexivity|].
  destruct (storeChunks _ _ _ _ _ coll) as [[r|] c]; inversion H; reflexivity.
Qed.

(** C7. Whatever the splitter makes of the text, a successful upload embeds
    no chunk, adds the empty request to the index and answers without a
    chunk count: [optimalChunkText] is asynchronous and called without
    [await], so that [chunks.length] is [undefined]. *)
Theorem post_upload_counts_no_chunk emb split extract unlink add file coll
    body coll' :
  post_upload emb split extract unlink add (Some file) coll = (Json body, coll') ->
  chunkCount body = None /\
  add {| add_ids := []; add_embeddings := []; add_documents := [];
         add_metadatas := [] |} coll = Normal coll' /\
  (forall text chunks,
     optimalChunkText split text = Normal chunks ->
     chunkCount body <> Some (List.length chunks)).
Proof.
  intros H; destruct (post_upload_Json _ _ _ _ _ _ _ _ _ H) as [text [_ Hs]].
  unfold storeChunks, bindH, lift, ret in Hs; cbn in Hs.
  fold emptyAdd in Hs.
  destruct (add emptyAdd coll) as [c1|] eqn:Eadd; [|discriminate].
  destruct (unlink (path file)); [|discriminate].
  inversion Hs; subst; cbn; split; [reflexivity|split; [exact Eadd|]].
  intros; discriminate.
Qed.

Lemma post_upload_counts_no_chunk_witness :
  chunkCount Sample.uploadedBody = None /\
  Sample.add {| add_ids := []; add_embeddings := []; add_documents := [];
                add_metadatas := [] |} Sample.collection
    = Normal Sample.collection /\
  (forall text chunks,
     optimalChunkText Sample.splitter text = Normal chunks ->
     chunkCount Sample.uploadedBody <> Some (List.length chunks)).
Proof.
  apply (post_upload_counts_no_chunk Sample.embeddings Sample.splitter
           Sample.extract Sample.unlink Sample.add Sample.contract
           Sample.collection Sample.uploadedBody Sample.collection).
  reflexivity.
Defined.

Lemma skipn_nth_error {A : Type} (l : list A) (i : nat) (x : A) :
  nth_error l i = Some x -> skipn i l = x :: skipn (S i) l.
Proof.
  revert i; induction l as [|y l IH]; intros [|i] H; try discriminate.
  - now inversion H.
  - cbn in H; change (skipn i l = x :: skipn (S i) l); now apply IH.
Qed.

(** The loop of [/upload] over an array of chunks pushes the text of each
    chunk in turn. *)
Lemma uploadLoop_array emb file items n :
  forall i acc request,
    (i + n <= List.length items)%nat ->
    foldM (uploadStep emb file (ArrayValue items)) acc (seq i n)
      = Normal request ->
    add_documents request =
      (add_documents acc ++ map chunk_text (firstn n (skipn i items)))%list.
Proof.
  induction n as [|n IH]; intros i acc request Hi H.
  - inversion H; subst; cbn; now rewrite app_nil_r.
  - cbn [seq foldM] in H; unfold uploadStep at 1 in H; cbn [get_item] in H.
    destruct (nth_error items i) as [item|] eqn:E.
    2:{ apply nth_error_None in E; lia. }
    destruct (getEmbedding emb (chunk_text item)); cbn [bind] in H;
      [|discriminate].
    apply IH in H; [|lia]; cbn [add_documents] in H.
    rewrite H, (skipn_nth_error _ _ _ E), <- app_assoc; reflexivity.
Qed.

(** Had the chunks been awaited, the handler would count and store them. *)
Lemma storeChunks_awaited emb unlink add file items coll body coll' :
  storeChunks emb unlink add file (ArrayValue items) coll
    = (Normal (Json body), coll') ->
  chunkCount body = Some (List.length items) /\
  exists request,
    add request coll = Normal coll' /\
    add_documents request = map chunk_text items.
Proof.
  unfold storeChunks, bindH, lift, ret; cbn [get_length forIndices]; intros H.
  destruct (foldM _ emptyAdd (seq 0 (List.length items))) as [request|] eqn:E;
    [|discriminate].
  destruct (add request coll) as [c1|] eqn:Eadd; [|discriminate].
  destruct (unlink (path file)); [|discriminate].
  inversion H; subst; cbn; split; [reflexivity|].
  exists request; split; [assumption|].
  rewrite (uploadLoop_array _ _ _ _ 0%nat _ _ (Nat.le_refl _) E).
  cbn; now rewrite firstn_all.
Qed.

(** ** The session registry *)

Lemma Map_get_set {V : Type} (m : JsMap V) (k k' : string) (v : V) :
  Map_get (Map_set m k v) k' =
  if String.eqb k k' then Some v else Map_get m k'.
Proof.
  induction m as [|[k0 v0] m IH]; cbn.
  - destruct (String.eqb k k'); reflexivity.
  - destruct (String.eqb_spec k0 k) as [->|Hk0]; cbn.
    + destruct (String.eqb k k'); reflexivity.
    + rewrite IH; destruct (String.eqb_spec k0 k') as [->|]; [|reflexivity].
      destruct (String.eqb_spec k k'); [congruence|reflexivity].
Qed.

Lemma Map_get_update {V : Type} (m : JsMap V) (k k' : string) (f : V -> V) :
  Map_get (Map_update m k f) k' =
  if String.eqb k k' then option_map f (Map_get m k) else Map_get m k'.
Proof.
  induction m as [|[k0 v0] m IH]; cbn.
  - destruct (String.eqb k k'); reflexivity.
  - destruct (String.eqb_spec k0 k) as [->|Hk0]; cbn.
    + destruct (String.eqb k k'); reflexivity.
    + rewrite IH; destruct (String.eqb_spec k0 k') as [->|]; [|reflexivity].
      destruct (String.eqb_spec k k'); [congruence|reflexivity].
Qed.

Lemma Map_update_keys {V : Type} (m : JsMap V) (k : string) (f : V -> V) :
  map fst (Map_update m k f) = map fst m.
Proof.
  induction m as [|[k0 v0] m IH]; cbn; [reflexivity|].
  destruct (String.eqb k0 k); cbn; [reflexivity|now rewrite IH].
Qed.

Lemma Map_get_None {V : Type} (m : JsMap V) (k : string) :
  Map_get m k = None -> ~ In k (map fst m).
Proof.
  induction m as [|[k0 v0] m IH]; cbn; [tauto|].
  destruct (String.eqb_spec k0 k); [discriminate|].
  intros H [Hk|Hk]; [contradiction|now apply IH].
Qed.

Lemma Map_set_keys_fresh {V : Type} (m : JsMap V) (k : string) (v : V) :
  Map_get m k = None -> map fst (Map_set m k v) = (map fst m ++ [k])%list.
Proof.
  induction m as [|[k0 v0] m IH]; cbn; [reflexivity|].
  destruct (String.eqb_spec k0 k); [discriminate|].
  intros H; cbn; now rewrite IH.
Qed.

Lemma Map_get_In {V : Type} (m : JsMap V) (k : string) (v : V) :
  NoDup (map fst m) -> In (k, v) m -> Map_get m k = Some v.
Proof.
  induction m as [|[k0 v0] m IH]; cbn; [tauto|].
  intros Hnd [Heq|Hin]; inversion Hnd as [|? ? Hk0 Hnd']; subst.
  - inversion Heq; subst; now rewrite String.eqb_refl.
  - destruct (String.eqb_spec k0 k) as [->|]; [|now apply IH].
    exfalso; apply Hk0; change k with (fst (k, v)); now apply in_map.
Qed.

Lemma Map_get_Some_In {V : Type} (m : JsMap V) (k : string) (v : V) :
  Map_get m k = Some v -> In (k, v) m.
Proof.
  induction m as [|[k0 v0] m IH]; cbn; [discriminate|].
  destruct (String.eqb_spec k0 k) as [->|]; intros H.
  - inversion H; now left.
  - right; now apply IH.
Qed.

Lemma find_app {A : Type} (f : A -> bool) (l l' : list A) :
  find f (l ++ l') =
  match find f l with
  | Some x => Some x
  | None => find f l'
  end.
Proof.
  induction l as [|x l IH]; cbn; [reflexivity|].
  destruct (f x); [reflexivity|exact IH].
Qed.

Lemma find_None_filter {A : Type} (f : A -> bool) (l : list A) :
  find f l = None -> filter f l = [].
Proof.
  induction l as [|x l IH]; cbn; [reflexivity|].
  destruct (f x); [discriminate|exact IH].
Qed.

Lemma fold_left_map {A B C : Type} (f : C -> B -> C) (g : A -> B)
    (l : list A) (c : C) :
  fold_left f (map g l) c = fold_left (fun c x => f c (g x)) l c.
Proof. revert c; induction l as [|x l IH]; intros c; cbn; auto. Qed.

Lemma sessionOf_empty_key (c : Collection) : sessionOf "" c = None.
Proof. unfold sessionOf; destruct (find _ c); reflexivity. Qed.

Lemma sessionOf_snoc_other k l r :
  whereSessionId k r = false -> sessionOf k (l ++ [r])%list = sessionOf k l.
Proof.
  intros H; unfold sessionOf.
  rewrite find_app, filter_app; cbn [find filter]; rewrite H, app_nil_r.
  destruct (find (whereSessionId k) l); reflexivity.
Qed.

Lemma sessionOf_snoc_same k l r :
  whereSessionId k r = true -> k <> "" ->
  sessionOf k (l ++ [r])%list =
  Some match sessionOf k l with
       | Some session => countedOnceMore session
       | None => {| session_sessionId := k;
                    session_filename := Meta.filename (meta r);
                    session_chunkCount := 1 |}
       end.
Proof.
  intros H Hk; unfold sessionOf.
  rewrite find_app, filter_app, length_app; cbn [find filter]; rewrite H.
  destruct (String.eqb_spec k ""); [contradiction|].
  destruct (find (whereSessionId k) l) eqn:E.
  - unfold countedOnceMore; cbn; now rewrite Nat.add_1_r.
  - now rewrite (find_None_filter _ _ E).
Qed.

Lemma whereSessionId_meta k r :
  whereSessionId k r =
  match Meta.sessionId (meta r) with
  | Some s => String.eqb s k
  | None => false
  end.
Proof. reflexivity. Qed.

(** The map built by [/sessions] holds, under every identifier, the session
    that stands for it. *)
Lemma sessionsMap_invariant (c : Collection) :
  let sessionsMap := fold_left sessionsStep (map meta c) [] in
  NoDup (map fst sessionsMap) /\
  forall k, Map_get sessionsMap k = sessionOf k c.
Proof.
  cbv zeta; rewrite fold_left_map.
  induction c as [|r l IH] using rev_ind; [split; [constructor|reflexivity]|].
  rewrite fold_left_app; cbn [fold_left].
  set (m := fold_left (fun m x => sessionsStep m (meta x)) l []) in *.
  destruct IH as [Hnd Hget].
  unfold sessionsStep.
  destruct (Meta.sessionId (meta r)) as [s|] eqn:Es.
  2:{ split; [assumption|]; intros k.
      rewrite sessionOf_snoc_other; [apply Hget|].
      now rewrite whereSessionId_meta, Es. }
  destruct (String.eqb_spec s "") as [->|Hs].
  { split; [assumption|]; intros k.
    destruct (String.eqb_spec "" k) as [<-|Hk].
    - now rewrite Hget, !sessionOf_empty_key.
    - rewrite sessionOf_snoc_other; [apply Hget|].
      rewrite whereSessionId_meta, Es; now apply String.eqb_neq. }
  assert (Hr : whereSessionId s r = true).
  { rewrite whereSessionId_meta, Es; apply String.eqb_refl. }
  assert (Hother : forall k, s <> k -> whereSessionId k r = false).
  { intros k Hk; rewrite whereSessionId_meta, Es; now apply String.eqb_neq. }
  unfold Map_has; destruct (Map_get m s) as [v|] eqn:Em.
  - split; [now rewrite Map_update_keys|].
    intros k; rewrite Map_get_update.
    destruct (String.eqb_spec s k) as [<-|Hk].
    + rewrite Em, sessionOf_snoc_same, <- Hget, Em by assumption; reflexivity.
    + rewrite sessionOf_snoc_other by auto; apply Hget.
  - split.
    + rewrite Map_update_keys, Map_set_keys_fresh by assumption.
      apply NoDup_app; [assumption|repeat constructor; simpl; tauto|].
      intros x Hx [<-|[]]; now apply (Map_get_None _ _ Em).
    + intros k; rewrite Map_get_update, !Map_get_set, String.eqb_refl.
      destruct (String.eqb_spec s k) as [<-|Hk].
      * rewrite sessionOf_snoc_same, <- Hget, Em by assumption; reflexivity.
      * rewrite sessionOf_snoc_other by auto; apply Hget.
Qed.

Lemma find_Some_exists {A : Type} (f : A -> bool) (l : list A) (x : A) :
  In x l -> f x = true -> exists y, find f l = Some y.
Proof.
  induction l as [|z l IH]; cbn; [tauto|].
  intros [->|Hin] Hx.
  - rewrite Hx; now eexists.
  - destruct (f z); [now eexists|now apply IH].
Qed.

(** The loop of [/sessions] over metadata that are all present. *)
Lemma sessionsCallback_loop (ms : list Meta.t) (sessionsMap : JsMap Session) :
  foldM sessionsCallback sessionsMap (map Some ms) =
  Normal (fold_left sessionsStep ms sessionsMap).
Proof.
  revert sessionsMap; induction ms as [|m ms IH]; intros sessionsMap;
    [reflexivity|].
  cbn [map foldM sessionsCallback bind fold_left]; apply IH.
Qed.

(** [/sessions] when the index serves the call. *)
Lemma get_sessions_served get (c : Collection) :
  get None c = Normal (answerOf (collection_get None c)) ->
  get_sessions get c =
    (Json (Map_values (fold_left sessionsStep (map meta c) [])), c).
Proof.
  intros Hget; unfold get_sessions, tryCatch, bindH, lift, ret.
  rewrite Hget; cbn [answerOf response_metadatas collection_get metadatas].
  now rewrite sessionsCallback_loop.
Qed.

(** [/sessions] when the index rejects the call. *)
Lemma get_sessions_rejected get (c : Collection) (e : JsError) :
  get None c = Throw e ->
  get_sessions get c = (Status 500 (message_of e), c).
Proof.
  intros Hget; unfold get_sessions, tryCatch, bindH; now rewrite Hget.
Qed.

Example sessions_of_record_without_metadata :
  get_sessions Fixture.getWithoutMetadata Sample.collection =
    (Status 500 "Cannot read properties of null (reading 'sessionId')",
     Sample.collection).
Proof. reflexivity. Qed.




(** ** Deletion *)

Lemma NoDup_map_inj {A B : Type} (f : A -> B) (l : list A) (x y : A) :
  NoDup (map f l) -> In x l -> In y l -> f x = f y -> x = y.
Proof.
  induction l as [|z l IH]; cbn; [tauto|].
  intros Hnd Hx Hy Hf; inversion Hnd as [|? ? Hz Hnd']; subst.
  destruct Hx as [->|Hx], Hy as [->|Hy]; auto.
  - exfalso; apply Hz; rewrite Hf; now apply in_map.
  - exfalso; apply Hz; rewrite <- Hf; now apply in_map.
Qed.

(** In a collection with unique identifiers, deleting the identifiers of a
    session removes its chunks and no other. *)
Lemma collection_delete_session (s : string) (c : Collection) :
  NoDup (map id c) ->
  collection_delete (map id (filter (whereSessionId s) c)) c =
  filter (fun r => negb (whereSessionId s r)) c.
Proof.
  intros Hnd; unfold collection_delete; apply filter_ext_in; intros r Hr.
  f_equal; destruct (whereSessionId s r) eqn:E.
  - apply existsb_exists; exists (id r); split; [|apply String.eqb_refl].
    apply in_map, filter_In; now split.
  - destruct (existsb _ _) eqn:Ex; [|reflexivity].
    apply existsb_exists in Ex; destruct Ex as [k [Hk Heq]].
    apply String.eqb_eq in Heq; apply in_map_iff in Hk.
    destruct Hk as [g [Hg Hin]]; apply filter_In in Hin; destruct Hin as [Hin Hw].
    assert (r = g) by (apply (NoDup_map_inj id c); congruence).
    congruence.
Qed.

Lemma filter_partition_length {A : Type} (f : A -> bool) (l : list A) :
  (List.length (filter (fun x => negb (f x)) l) + List.length (filter f l)
   = List.length l)%nat.
Proof.
  induction l as [|x l IH]; cbn; [reflexivity|].
  destruct (f x); cbn; lia.
Qed.

(** The deletion of a session when the index serves the [get]. *)
Lemma delete_session_served get delete (sessionId : string) (c : Collection) :
  get (Some sessionId) c =
    Normal (answerOf (collection_get (Some sessionId) c)) ->
  delete_session get delete sessionId c =
    match filter (whereSessionId sessionId) c with
    | [] => (Status 404 "Session not found", c)
    | group =>
        match delete (map id group) c with
        | Normal rest =>
            (Json {| delete_message :=
                       "Deleted " ++ string_of_nat (List.length group) ++
                       " chunks for session " ++ sessionId |}, rest)
        | Throw e => (Status 500 (message_of e), c)
        end
    end.
Proof.
  intros Hget; unfold delete_session, tryCatch, bindH, ret.
  rewrite Hget; cbn [answerOf response_ids collection_get ids].
  destruct (filter (whereSessionId sessionId) c) as [|g group]; [reflexivity|].
  cbn [map bind]; destruct (delete (id g :: map id group) c); [|reflexivity].
  cbn [List.length]; now rewrite length_map.
Qed.

Lemma delete_session_served_group get delete (sessionId : string)
    (c : Collection) :
  get (Some sessionId) c =
    Normal (answerOf (collection_get (Some sessionId) c)) ->
  filter (whereSessionId sessionId) c <> [] ->
  delete_session get delete sessionId c =
    match delete (map id (filter (whereSessionId sessionId) c)) c with
    | Normal rest =>
        (Json {| delete_message :=
                   "Deleted " ++
                   string_of_nat
                     (List.length (filter (whereSessionId sessionId) c)) ++
                   " chunks for session " ++ sessionId |}, rest)
    | Throw e => (Status 500 (message_of e), c)
    end.
Proof.
  intros Hget Hg; rewrite (delete_session_served get delete sessionId c Hget).
  destruct (filter (whereSessionId sessionId) c); [contradiction|reflexivity].
Qed.

(** The deletion of a session when the index rejects the [get]. *)
Lemma delete_session_rejected get delete (sessionId : string) (c : Collection)
    (e : JsError) :
  get (Some sessionId) c = Throw e ->
  delete_session get delete sessionId c = (Status 500 (message_of e), c).
Proof.
  intros Hget; unfold delete_session, tryCatch, bindH; now rewrite Hget.
Qed.

(** C9. When the index serves the two calls, deleting a session that has
    chunks removes every chunk whose metadata carry the session identifier
    and reports the number of these chunks; when the chunk identifiers of
    the collection are unique, as the index keeps them, no other chunk is
    removed, so that the number reported is the number deleted.  Deleting a
    session without chunks fails with 404 (not found) and leaves the
    collection as it is.  When the index rejects the [get] or the [delete],
    the deletion fails with 500 and the message of the exception, and the
    collection is as it was. *)
Theorem delete_session_removes_group
    (get : option string -> Collection -> Completion GetResponse)
    (delete : list string -> Collection -> Completion Collection)
    (sessionId : string) (c : Collection) :
  let group := filter (whereSessionId sessionId) c in
  (forall e, get (Some sessionId) c = Throw e ->
     delete_session get delete sessionId c = (Status 500 (message_of e), c)) /\
  (get (Some sessionId) c =
     Normal (answerOf (collection_get (Some sessionId) c)) ->
   (group = [] ->
      delete_session get delete sessionId c =
        (Status 404 "Session not found", c)) /\
   (group <> [] ->
      (forall e, delete (map id group) c = Throw e ->
         delete_session get delete sessionId c =
           (Status 500 (message_of e), c)) /\
      (delete (map id group) c =
         Normal (collection_delete (map id group) c) ->
       exists rest,
         delete_session get delete sessionId c =
           (Json {| delete_message :=
                      "Deleted " ++ string_of_nat (List.length group) ++
                      " chunks for session " ++ sessionId |}, rest) /\
         (forall r, In r rest ->
            In r c /\ Meta.sessionId (meta r) <> Some sessionId) /\
         (NoDup (map id c) ->
            rest = filter (fun r => negb (whereSessionId sessionId r)) c /\
            (List.length rest + List.length group = List.length c)%nat)))).
Proof.
  intros group; split; [intros e; apply delete_session_rejected|].
  intros Hget; split; intros Hg.
  { rewrite (delete_session_served get delete sessionId c Hget).
    fold group; now rewrite Hg. }
  rewrite (delete_session_served_group get delete sessionId c Hget Hg).
  fold group; split; [intros e He; now rewrite He|].
  intros Hdelete; rewrite Hdelete.
  exists (collection_delete (map id group) c); split; [reflexivity|split].
  - intros r Hr; unfold collection_delete in Hr.
    apply filter_In in Hr; destruct Hr as [Hin Hr]; split; [assumption|].
    intros Hs; apply negb_true_iff in Hr.
    assert (Hex : existsb (String.eqb (id r)) (map id group) = true);
      [|congruence].
    apply existsb_exists; exists (id r); split; [|apply String.eqb_refl].
    apply in_map; unfold group; apply filter_In; split; [assumption|].
    now rewrite whereSessionId_meta, Hs, String.eqb_refl.
  - intros Hnd; unfold group; rewrite collection_delete_session by assumption.
    split; [reflexivity|apply filter_partition_length].
Qed.

Lemma delete_session_removes_group_witness :
  delete_session Fixture.getRefused Sample.delete "s1" Sample.collection
    = (Status 500 "Failed to connect to chromadb", Sample.collection) /\
  delete_session Sample.get Sample.delete "s9" Sample.collection
    = (Status 404 "Session not found", Sample.collection) /\
  delete_session Sample.get Fixture.deleteRefused "s1" Sample.collection
    = (Status 500 "Failed to connect to chromadb", Sample.collection) /\
  exists rest,
    delete_session Sample.get Sample.delete "s1" Sample.collection =
      (Json {| delete_message := "Deleted 2 chunks for session s1" |}, rest) /\
    (forall r, In r rest ->
       In r Sample.collection /\ Meta.sessionId (meta r) <> Some "s1") /\
    (NoDup (map id Sample.collection) ->
       rest = [Sample.record "s2_chunk_0" "s2" "B.pdf" 0] /\
       (List.length rest + 2 = 3)%nat).
Proof.
  split; [|split; [|split]].
  - apply (proj1 (delete_session_removes_group Fixture.getRefused
                    Sample.delete "s1" Sample.collection)
                 (Error "Failed to connect to chromadb")); reflexivity.
  - apply (delete_session_removes_group Sample.get Sample.delete
             "s9" Sample.collection); reflexivity.
  - destruct (delete_session_removes_group Sample.get Fixture.deleteRefused
                "s1" Sample.collection) as [_ Hserved].
    destruct (Hserved eq_refl) as [_ Hgroup].
    apply (proj1 (Hgroup ltac:(discriminate))
                 (Error "Failed to connect to chromadb")); reflexivity.
  - destruct (delete_session_removes_group Sample.get Sample.delete
                "s1" Sample.collection) as [_ Hserved].
    destruct (Hserved eq_refl) as [_ Hgroup].
    apply (proj2 (Hgroup ltac:(discriminate))); reflexivity.
Defined.

(** * Further properties of the code *)

(** ** Tokens *)

Lemma split_ws_nonempty (s : string) : split_ws s <> [].
Proof.
  induction s as [|c s IH]; cbn; [discriminate|].
  destruct (isWhiteSpace c).
  - destruct (startsWithSpace s); [assumption|discriminate].
  - destruct (split_ws s); discriminate.
Qed.

Lemma split_ws_spaceFree (s : string) :
  Forall (fun piece => spaceFree piece = true) (split_ws s).
Proof.
  induction s as [|c s IH]; cbn; [repeat constructor|].
  destruct (isWhiteSpace c) eqn:Ec.
  - destruct (startsWithSpace s); [assumption|now constructor].
  - destruct (split_ws s) as [|piece rest]; [repeat constructor; cbn; now rewrite Ec|].
    inversion IH; subst; constructor; [cbn; now rewrite Ec|assumption].
Qed.

Lemma lowerChar_idempotent (c : ascii) : lowerChar (lowerChar c) = lowerChar c.
Proof.
  destruct c as [[] [] [] [] [] [] [] []]; vm_compute; reflexivity.
Qed.

Lemma toLowerCase_idempotent (s : string) :
  toLowerCase (toLowerCase s) = toLowerCase s.
Proof.
  induction s as [|c s IH]; cbn; [reflexivity|].
  now rewrite lowerChar_idempotent, IH.
Qed.

Lemma lowerChar_space (c : ascii) :
  isWhiteSpace (lowerChar c) = isWhiteSpace c.
Proof.
  destruct c as [[] [] [] [] [] [] [] []]; vm_compute; reflexivity.
Qed.

(** Splitting commutes with lowering the case. *)
Lemma split_ws_toLowerCase (s : string) :
  split_ws (toLowerCase s) = map toLowerCase (split_ws s).
Proof.
  induction s as [|c s IH]; cbn; [reflexivity|].
  rewrite lowerChar_space.
  assert (Hs : startsWithSpace (toLowerCase s) = startsWithSpace s).
  { destruct s; cbn; [reflexivity|apply lowerChar_space]. }
  rewrite Hs, IH.
  destruct (isWhiteSpace c).
  - destruct (startsWithSpace s); reflexivity.
  - destruct (split_ws s); reflexivity.
Qed.

(** X1. The words that the reranker takes from a query have at least three
    characters, contain no white space and are in lower case. *)
Theorem queryWords_shape (query w : string) :
  In w (queryWords query) ->
  (3 <= String.length w)%nat /\ spaceFree w = true /\ toLowerCase w = w.
Proof.
  unfold queryWords; intros H; apply filter_In in H; destruct H as [Hin Hlen].
  apply Nat.ltb_lt in Hlen; split; [lia|]; split.
  - pose proof (split_ws_spaceFree (toLowerCase query)) as Hf.
    rewrite Forall_forall in Hf; now apply Hf.
  - rewrite split_ws_toLowerCase in Hin; apply in_map_iff in Hin.
    destruct Hin as [piece [<- _]]; apply toLowerCase_idempotent.
Qed.

Lemma queryWords_shape_witness :
  (3 <= String.length "termination")%nat /\
  spaceFree "termination" = true /\ toLowerCase "termination" = "termination".
Proof.
  apply (queryWords_shape "What is the Termination clause of it?" "termination").
  vm_compute; right; right; left; reflexivity.
Defined.

(** X2. The case of the query has no part in the reranking. *)
Theorem optimalReranking_query_case host query chunks topK :
  optimalReranking host (toLowerCase query) chunks topK =
  optimalReranking host query chunks topK.
Proof.
  unfold optimalReranking, queryWords; now rewrite toLowerCase_idempotent.
Qed.

(** ** Term frequencies of literal words *)

Lemma isLiteralPattern_balanced (p : string) :
  isLiteralPattern p = true -> unbalanced 0 false false p = false.
Proof.
  induction p as [|c p IH]; cbn [isLiteralPattern unbalanced]; [reflexivity|].
  intros H; apply andb_true_iff in H; destruct H as [Hc Hp].
  apply negb_true_iff in Hc; unfold isSyntaxCharacter in Hc; cbn in Hc.
  repeat (apply orb_false_iff in Hc; destruct Hc as [? Hc]).
  replace (Ascii.eqb c "\") with false by congruence.
  replace (Ascii.eqb c "[") with false by congruence.
  replace (Ascii.eqb c "(") with false by congruence.
  replace (Ascii.eqb c ")") with false by congruence.
  now apply IH.
Qed.

Lemma prefix_length (p s : string) :
  String.prefix p s = true -> (String.length p <= String.length s)%nat.
Proof.
  revert s; induction p as [|c p IH]; intros s H; cbn; [lia|].
  destruct s as [|c' s]; cbn in H; [discriminate|].
  destruct (ascii_dec c c'); [|discriminate].
  apply IH in H; cbn; lia.
Qed.

Lemma prefix_empty_text (p : string) :
  p <> "" -> String.prefix p "" = false.
Proof. destruct p; [contradiction|reflexivity]. Qed.

(** The matches of a literal word do not overlap. *)
Lemma literalMatches_disjoint (p s : string) (skip : nat) :
  (List.length (literalMatches p skip s) * String.length p + skip
   <= Nat.max skip (String.length s))%nat.
Proof.
  revert skip; induction s as [|c s IH]; intros skip; cbn [literalMatches].
  - cbn; lia.
  - destruct skip as [|k].
    + destruct (String.prefix p (String c s)) eqn:E.
      * apply prefix_length in E; cbn [String.length] in E.
        specialize (IH (String.length p - 1)%nat).
        cbn [List.length String.length]; lia.
      * specialize (IH 0%nat); cbn [String.length]; lia.
    + specialize (IH k); cbn [String.length]; lia.
Qed.

Lemma literalMatches_includes (p s : string) :
  p <> "" -> (literalMatches p 0 s = [] <-> includes s p = false).
Proof.
  intros Hp; induction s as [|c s IH]; cbn [literalMatches includes].
  - rewrite (prefix_empty_text p Hp); tauto.
  - destruct (String.prefix p (String c s)); cbn [orb].
    + split; discriminate.
    + exact IH.
Qed.



(** ** Ranges of the signals *)

Lemma normalizedTF_range (tf docLength : number) :
  0 <= tf -> 0 <= docLength ->
  0 <= normalizedTF tf docLength /\ normalizedTF tf docLength < 5 # 2.
Proof.
  intros Ht Hd; unfold normalizedTF.
  pose proof (normalisation_pos docLength Hd) as Hc.
  set (c := k1 * (1 - b + b * (docLength / avgDocLength))) in *.
  split.
  - apply Qle_shift_div_l; [lra|unfold k1; lra].
  - apply Qlt_shift_div_r; [lra|unfold k1; lra].
Qed.

Lemma normalizedTF_pos (tf docLength : number) :
  0 < tf -> 0 <= docLength -> 0 < normalizedTF tf docLength.
Proof.
  intros Ht Hd; unfold normalizedTF.
  pose proof (normalisation_pos docLength Hd) as Hc.
  set (c := k1 * (1 - b + b * (docLength / avgDocLength))) in *.
  apply Qlt_shift_div_l; [lra|unfold k1; lra].
Qed.

Lemma normalizedTF_zero (docLength : number) :
  normalizedTF (ofNat 0) docLength == 0.
Proof. unfold normalizedTF, Qdiv; change (ofNat 0) with 0; ring. Qed.

Lemma ofNat_pos (n : nat) : (0 < n)%nat -> 0 < ofNat n.
Proof.
  intros H; unfold ofNat; change 0 with (inject_Z 0); rewrite <- Zlt_Qlt; lia.
Qed.

Lemma bm25_loop_range host t docLength words :
  0 <= docLength ->
  forall acc s,
    foldM (bm25Step host t docLength) acc words = Normal s ->
    acc <= s /\ s <= acc + 5 * ofNat (List.length words) /\
    (s == acc <-> forall w, In w words -> termFrequency host t w = Normal 0%nat).
Proof.
  intros Hd; induction words as [|w ws IH]; intros acc s H.
  - inversion H; subst; cbn; change (ofNat 0) with 0.
    repeat split; try lra; intros _ w [].
  - cbn [foldM] in H; unfold bm25Step at 1 in H.
    destruct (termFrequency host t w) as [n|] eqn:En; cbn [bind] in H;
      [|discriminate].
    destruct (IH _ _ H) as [Hlo [Hhi Hzero]].
    pose proof (normalizedTF_range (ofNat n) docLength (ofNat_nonneg n) Hd)
      as [Hn0 Hn1].
    assert (Hlen : ofNat (List.length (w :: ws)) == ofNat (List.length ws) + 1).
    { unfold ofNat; cbn [List.length]; rewrite Nat2Z.inj_succ, <- Z.add_1_r.
      now rewrite inject_Z_plus. }
    rewrite Hlen; repeat split; try lra.
    + intros Hs w' [<-|Hw'].
      * destruct n as [|n]; [exact En|].
        pose proof (normalizedTF_pos (ofNat (S n)) docLength
                      (ofNat_pos (S n) (Nat.lt_0_succ n)) Hd); lra.
      * apply Hzero; [lra|assumption].
    + intros Hall.
      assert (Hn : n = 0%nat).
      { specialize (Hall w (or_introl eq_refl)); congruence. }
      subst n; destruct Hzero as [_ Hzero].
      rewrite Hzero by (intros; apply Hall; now right).
      rewrite normalizedTF_zero; ring.
Qed.

(** X4. The bm25 score of a chunk lies between 0 and 5 times the number of
    query words (every word brings less than 2 * (k1 + 1) = 5), and it is 0
    exactly when no query word occurs in the chunk. *)
Theorem bm25Score_range host words chunkText s :
  bm25Score host words chunkText = Normal s ->
  0 <= s /\ s <= 5 * ofNat (List.length words) /\
  (s == 0 <->
   forall w, In w words -> termFrequency host chunkText w = Normal 0%nat).
Proof.
  unfold bm25Score; intros H.
  destruct (bm25_loop_range host chunkText _ words (ofNat_nonneg _) 0 s H)
    as [H0 [H1 H2]].
  repeat split; try lra; apply H2.
Qed.

Lemma bm25Score_range_witness :
  0 <= 0 + normalizedTF (ofNat 0) (ofNat 3) * 2 /\
  0 + normalizedTF (ofNat 0) (ofNat 3) * 2
    <= 5 * ofNat (List.length ["lease"]) /\
  (0 + normalizedTF (ofNat 0) (ofNat 3) * 2 == 0 <->
   forall w, In w ["lease"] ->
     termFrequency Sample.literalOnlyHost "rent due now" w = Normal 0%nat).
Proof.
  apply (bm25Score_range Sample.literalOnlyHost ["lease"] "rent due now"
           (0 + normalizedTF (ofNat 0) (ofNat 3) * 2)).
  reflexivity.
Defined.

Lemma Math_max_lower (a x : number) : a <= Math_max a x.
Proof. rewrite Math_max_spec; apply Q.le_max_l. Qed.

Lemma Math_max_zero (x : number) : x <= 0 -> Math_max 0 x == 0.
Proof. intros H; rewrite Math_max_spec; now apply Q.max_l. Qed.

Lemma Math_max_pos (x : number) : 0 <= x -> Math_max 0 x == x.
Proof. intros H; rewrite Math_max_spec; now apply Q.max_r. Qed.

(** X5. The length score lies between 0 and 2; it is 2 exactly for a chunk
    of 1200 characters, it is 0 from 1000 characters of difference on, and a
    chunk without a length (or of length 0) is scored as one of 1000
    characters. *)
Theorem lengthScore_range (c : Chunk) :
  let l := orDefault (metadata_length c) 1000 in
  0 <= lengthScore c /\ lengthScore c <= 2 /\
  (lengthScore c == 2 <-> l == 1200) /\
  (1000 <= Qabs (l - 1200) -> lengthScore c == 0) /\
  (truthy (metadata_length c) = false -> lengthScore c == 8 # 5).
Proof.
  cbv zeta.
  assert (Hfalsy : truthy (metadata_length c) = false ->
                   orDefault (metadata_length c) 1000 = 1000).
  { unfold truthy, orDefault; destruct (metadata_length c) as [q|];
      [|reflexivity].
    destruct (Qeq_bool q 0); [reflexivity|discriminate]. }
  unfold lengthScore, Math_abs, optimalLength.
  set (l := orDefault (metadata_length c) 1000) in *.
  pose proof (Qabs_nonneg (l - 1200)) as Habs.
  assert (Hzero : Qabs (l - 1200) == 0 <-> l == 1200).
  { split; intros H.
    - destruct (Qlt_le_dec (l - 1200) 0) as [Hn|Hp].
      + rewrite Qabs_neg in H by lra; lra.
      + rewrite Qabs_pos in H by lra; lra.
    - rewrite Qabs_pos by lra; lra. }
  assert (Hdiv : Qabs (l - 1200) / 500 == Qabs (l - 1200) * (1 # 500))
    by reflexivity.
  rewrite Math_max_spec, Hdiv.
  set (a := Qabs (l - 1200)) in *.
  assert (Hmissing : truthy (metadata_length c) = false -> a == 200).
  { intros H; apply Hfalsy in H; subst a; rewrite H; reflexivity. }
  destruct (Q.max_spec 0 (2 - a * (1 # 500))) as [[Hlt ->]|[Hle ->]].
  - split; [lra|]; split; [lra|]; split; [|split].
    + split; intros H; [apply Hzero|apply Hzero in H]; lra.
    + intros H; lra.
    + intros H; apply Hmissing in H; lra.
  - split; [lra|]; split; [lra|]; split; [|split].
    + split; intros H; [|apply Hzero in H]; lra.
    + intros H; lra.
    + intros H; apply Hmissing in H; lra.
Qed.

Example positionScore_reaches_3_on_doubles :
  PrimFloat.eqb (Binary64.positionScore Binary64.nearestPosition)
                (Binary64.ofZ 3) = true.
Proof. vm_compute; reflexivity. Qed.

(** X6. For a chunk at an integer position, as [optimalChunkText] numbers
    the chunks, the position score lies between 0 and 3 without reaching 3,
    it is 0 from position 30 on, and among the chunks after the first a
    later chunk never scores higher.  On the doubles of the runtime the same
    holds for the positions up to 5000. *)
Theorem positionScore_range (c : Chunk) (n : nat) :
  metadata_position c = Some (ofNat n) ->
  0 <= positionScore c /\ positionScore c < 3 /\
  ((30 <= n)%nat -> positionScore c == 0) /\
  (forall c' n',
     metadata_position c' = Some (ofNat n') -> (0 < n)%nat -> (n <= n')%nat ->
     positionScore c' <= positionScore c) /\
  (forall position : Z, (0 <= position <= 5000)%Z ->
     PrimFloat.leb (Binary64.ofZ 0)
                   (Binary64.positionScore (Binary64.ofZ position)) = true /\
     PrimFloat.ltb (Binary64.positionScore (Binary64.ofZ position))
                   (Binary64.ofZ 3) = true /\
     ((30 <= position)%Z ->
      PrimFloat.eqb (Binary64.positionScore (Binary64.ofZ position))
                    (Binary64.ofZ 0) = true) /\
     ((0 < position)%Z ->
      PrimFloat.leb (Binary64.positionScore (Binary64.ofZ (position + 1)))
                    (Binary64.positionScore (Binary64.ofZ position)) = true)).
Proof.
  intros Hp.
  pose proof (ofNat_nonneg n) as H0.
  set (p := ofNat n) in *.
  assert (Hcases : (p == 0 /\ positionScore c = 0) \/
                   (0 < p /\ positionScore c == Qmax 0 (3 - p * (1 # 10)))).
  { destruct (Qeq_dec p 0) as [Hz|Hnz].
    - left; split; [assumption|].
      unfold positionScore, truthy; rewrite Hp.
      apply Qeq_bool_iff in Hz; now rewrite Hz.
    - right; split; [lra|].
      rewrite (positionScore_nonzero c p Hp Hnz); apply Math_max_spec. }
  assert (Hthirty : (30 <= n)%nat -> 30 <= p).
  { intros H; apply (ofNat_le 30 n H). }
  assert (Hlater : forall c' n',
            metadata_position c' = Some (ofNat n') -> (0 < n)%nat ->
            (n <= n')%nat ->
            0 < p /\ p <= ofNat n' /\
            positionScore c' == Qmax 0 (3 - ofNat n' * (1 # 10))).
  { intros c' n' Hp' Hpos Hle.
    pose proof (ofNat_le 1 n Hpos) as H1; change (ofNat 1) with 1 in H1.
    pose proof (ofNat_le n n' Hle) as Hle'; fold p in H1, Hle'.
    split; [lra|split; [assumption|]].
    rewrite (positionScore_nonzero c' (ofNat n') Hp') by lra.
    apply Math_max_spec. }
  split; [|split; [|split; [|split]]].
  - destruct Hcases as [[_ ->]|[_ ->]]; [lra|apply Q.le_max_l].
  - destruct Hcases as [[_ ->]|[Hpos ->]]; [lra|].
    destruct (Q.max_spec 0 (3 - p * (1 # 10))) as [[_ ->]|[_ ->]]; lra.
  - intros H; apply Hthirty in H.
    destruct Hcases as [[_ ->]|[_ ->]]; [reflexivity|].
    destruct (Q.max_spec 0 (3 - p * (1 # 10))) as [[? ->]|[_ ->]]; lra.
  - intros c' n' Hp' Hpos Hle.
    destruct (Hlater c' n' Hp' Hpos Hle) as [Hp0 [Hpp ->]].
    destruct Hcases as [[Hz _]|[_ ->]]; [lra|].
    destruct (Q.max_spec 0 (3 - p * (1 # 10))) as [[? ->]|[? ->]];
      destruct (Q.max_spec 0 (3 - ofNat n' * (1 # 10))) as [[? ->]|[? ->]];
      lra.
  - intros position Hrange.
    pose proof positionHolds_checked as Hall.
    rewrite forallb_forall in Hall.
    specialize (Hall position (range_In (Z.to_nat 5001) 0 position ltac:(lia))).
    unfold Binary64.positionHolds in Hall; cbv zeta in Hall.
    apply andb_true_iff in Hall; destruct Hall as [Hall Hzero].
    apply andb_true_iff in Hall; destruct Hall as [Hall Hnext].
    apply andb_true_iff in Hall; destruct Hall as [Hlow Hhigh].
    split; [exact Hlow|split; [exact Hhigh|split]].
    + intros H; apply orb_true_iff in Hzero; destruct Hzero as [Hlt|Heq];
        [apply Z.ltb_lt in Hlt; lia|exact Heq].
    + intros H; apply orb_true_iff in Hnext; destruct Hnext as [Heq|Hle];
        [apply Z.eqb_eq in Heq; lia|exact Hle].
Qed.

Lemma positionScore_range_witness :
  0 <= positionScore Sample.secondChunk /\
  positionScore Sample.secondChunk < 3 /\
  ((30 <= 1)%nat -> positionScore Sample.secondChunk == 0) /\
  (forall c' n',
     metadata_position c' = Some (ofNat n') -> (0 < 1)%nat -> (1 <= n')%nat ->
     positionScore c' <= positionScore Sample.secondChunk) /\
  PrimFloat.ltb (Binary64.positionScore (Binary64.ofZ 1)) (Binary64.ofZ 3)
    = true.
Proof.
  destruct (positionScore_range Sample.secondChunk 1 eq_refl)
    as [Hlow [Hhigh [Hzero [Hlater Hdouble]]]].
  split; [exact Hlow|split; [exact Hhigh|split; [exact Hzero|]]].
  split; [exact Hlater|].
  apply (Hdouble 1%Z); lia.
Defined.

(** ** The phrase score *)

Lemma scoreLoop_count (f : string -> bool) (k : number) (l : list string) :
  forall acc,
    fold_left (fun score g => if f g then score + k else score) l acc ==
    acc + k * ofNat (List.length (filter f l)).
Proof.
  induction l as [|g l IH]; intros acc; cbn [fold_left filter].
  - change (ofNat (List.length [])) with 0; ring.
  - rewrite IH; destruct (f g); [|reflexivity].
    unfold ofNat; cbn [List.length].
    rewrite Nat2Z.inj_succ, <- Z.add_1_r, inject_Z_plus; change (inject_Z 1) with 1.
    ring.
Qed.

Lemma queryBigrams_length (ws : list string) :
  List.length (queryBigrams ws) = (List.length ws - 1)%nat.
Proof.
  induction ws as [|w0 [|w1 rest] IH]; cbn [queryBigrams List.length] in *;
    try reflexivity.
  rewrite IH; lia.
Qed.

Lemma queryTrigrams_length (ws : list string) :
  List.length (queryTrigrams ws) = (List.length ws - 2)%nat.
Proof.
  induction ws as [|w0 [|w1 [|w2 rest]] IH];
    cbn [queryTrigrams List.length] in *; try reflexivity.
  rewrite IH; lia.
Qed.

Lemma filter_length_le {A : Type} (f : A -> bool) (l : list A) :
  (List.length (filter f l) <= List.length l)%nat.
Proof. induction l as [|x l IH]; cbn; [lia|destruct (f x); cbn; lia]. Qed.

(** X7. The phrase score is 10 for every trigram and 5 for every bigram of
    the query found in the chunk; it is at most 10 (n - 2) + 5 (n - 1) for a
    query of n words, and 0 for a query of fewer than two words. *)
Theorem phraseScore_count (words : list string) (chunkText : string) :
  let trigrams := filter (includes chunkText) (queryTrigrams words) in
  let bigrams := filter (includes chunkText) (queryBigrams words) in
  phraseScore words chunkText ==
    10 * ofNat (List.length trigrams) + 5 * ofNat (List.length bigrams) /\
  0 <= phraseScore words chunkText /\
  phraseScore words chunkText <=
    10 * ofNat (List.length words - 2) + 5 * ofNat (List.length words - 1) /\
  ((List.length words < 2)%nat -> phraseScore words chunkText == 0).
Proof.
  cbv zeta.
  assert (H : phraseScore words chunkText ==
            10 * ofNat (List.length (filter (includes chunkText) (queryTrigrams words))) +
            5 * ofNat (List.length (filter (includes chunkText) (queryBigrams words)))).
  { unfold phraseScore; rewrite scoreLoop_count.
    rewrite (scoreLoop_count (includes chunkText) 10); ring. }
  pose proof (filter_length_le (includes chunkText) (queryTrigrams words)) as Ht.
  pose proof (filter_length_le (includes chunkText) (queryBigrams words)) as Hb.
  rewrite queryTrigrams_length in Ht; rewrite queryBigrams_length in Hb.
  pose proof (ofNat_nonneg (List.length (filter (includes chunkText) (queryTrigrams words)))).
  pose proof (ofNat_nonneg (List.length (filter (includes chunkText) (queryBigrams words)))).
  apply ofNat_le in Ht, Hb.
  split; [exact H|]; split; [lra|]; split; [lra|].
  intros Hn.
  replace (List.length words - 2)%nat with 0%nat in Ht by lia.
  replace (List.length words - 1)%nat with 0%nat in Hb by lia.
  change (ofNat 0) with 0 in Ht, Hb; lra.
Qed.

Lemma prefix_app (t s : string) :
  String.prefix t s = true <-> exists post, s = t ++ post.
Proof.
  revert s; induction t as [|c t IH]; intros s.
  - split; [intros _; now exists s|intros _; destruct s; reflexivity].
  - destruct s as [|c' s]; cbn.
    + split; [discriminate|intros [post H]; discriminate].
    + destruct (ascii_dec c c') as [->|Hne].
      * rewrite IH; split; intros [post H]; exists post; [now subst|].
        now inversion H.
      * split; [discriminate|intros [post H]; inversion H; congruence].
Qed.

Lemma includes_spec (s t : string) :
  includes s t = true <-> exists pre post, s = pre ++ t ++ post.
Proof.
  induction s as [|c s IH]; cbn [includes].
  - rewrite orb_false_r, prefix_app; split.
    + intros [post H]; now exists "", post.
    + intros [[|c pre] [post H]]; [now exists post|discriminate].
  - rewrite orb_true_iff, prefix_app, IH; split.
    + intros [[post H]|[pre [post H]]].
      * now exists "", post.
      * exists (String c pre), post; cbn; now rewrite H.
    + intros [[|c' pre] [post H]].
      * left; now exists post.
      * right; inversion H; now exists pre, post.
Qed.

Lemma append_assoc (x y z : string) : (x ++ y) ++ z = x ++ y ++ z.
Proof. induction x as [|c x IH]; cbn; [reflexivity|now rewrite IH]. Qed.

Lemma includes_app (s x y : string) :
  includes s (x ++ y) = true -> includes s x = true /\ includes s y = true.
Proof.
  rewrite !includes_spec; intros [pre [post H]]; split.
  - exists pre, (y ++ post); now rewrite H, append_assoc.
  - exists (pre ++ x), post; now rewrite H, !append_assoc.
Qed.

Lemma trigram_brings_bigrams (words : list string) (chunkText : string) :
  (exists g, In g (queryTrigrams words) /\ includes chunkText g = true) ->
  (2 <= List.length (filter (includes chunkText) (queryBigrams words)))%nat.
Proof.
  induction words as [|w0 rest IH]; [intros [g [Hin _]]; contradiction|].
  destruct rest as [|w1 [|w2 rest]];
    [intros [g [Hin _]]; contradiction..|].
  intros [g [Hin Hg]].
  change (queryBigrams (w0 :: w1 :: w2 :: rest))
    with ((w0 ++ " " ++ w1) :: queryBigrams (w1 :: w2 :: rest)).
  change (queryTrigrams (w0 :: w1 :: w2 :: rest))
    with ((w0 ++ " " ++ w1 ++ " " ++ w2) :: queryTrigrams (w1 :: w2 :: rest))
    in Hin.
  destruct Hin as [<-|Hin].
  - change (queryBigrams (w1 :: w2 :: rest))
      with ((w1 ++ " " ++ w2) :: queryBigrams (w2 :: rest)).
    assert (H1 : includes chunkText (w0 ++ " " ++ w1) = true).
    { replace (w0 ++ " " ++ w1 ++ " " ++ w2)
        with ((w0 ++ " " ++ w1) ++ " " ++ w2) in Hg
        by now rewrite !append_assoc.
      now apply includes_app in Hg. }
    assert (H2 : includes chunkText (w1 ++ " " ++ w2) = true).
    { replace (w0 ++ " " ++ w1 ++ " " ++ w2)
        with ((w0 ++ " ") ++ w1 ++ " " ++ w2) in Hg
        by now rewrite !append_assoc.
      now apply includes_app in Hg. }
    cbn [filter]; rewrite H1, H2; cbn [List.length]; lia.
  - assert (IH' := IH (ex_intro _ g (conj Hin Hg))).
    cbn [filter]; destruct (includes chunkText (w0 ++ " " ++ w1));
      cbn [List.length]; lia.
Qed.

(** X8. A trigram of the query found in the chunk never counts for 10 alone:
    its two bigrams are found as well, so that the phrase score is at least
    20. *)
Theorem phraseScore_trigram (words : list string) (chunkText g : string) :
  In g (queryTrigrams words) -> includes chunkText g = true ->
  20 <= phraseScore words chunkText.
Proof.
  intros Hin Hg.
  pose proof (trigram_brings_bigrams words chunkText
                (ex_intro _ g (conj Hin Hg))) as Hb.
  assert (Ht : (1 <= List.length (filter (includes chunkText)
                                     (queryTrigrams words)))%nat).
  { assert (Hf : In g (filter (includes chunkText) (queryTrigrams words)))
      by (apply filter_In; now split).
    destruct (filter _ (queryTrigrams words)); [contradiction|cbn; lia]. }
  unfold phraseScore; rewrite scoreLoop_count.
  rewrite (scoreLoop_count (includes chunkText) 10).
  apply ofNat_le in Hb, Ht; change (ofNat 2) with 2 in Hb.
  change (ofNat 1) with 1 in Ht; lra.
Qed.

Lemma phraseScore_trigram_witness :
  20 <= phraseScore ["late"; "payment"; "fee"] "a late payment fee is due".
Proof.
  apply (phraseScore_trigram ["late"; "payment"; "fee"]
           "a late payment fee is due" "late payment fee").
  - left; reflexivity.
  - reflexivity.
Defined.

(** ** What the reranker keeps *)

Lemma mapM_scoreChunk_chunks host words chunks scored :
  mapM (scoreChunk host words) chunks = Normal scored ->
  map chunk scored = chunks.
Proof.
  revert scored; induction chunks as [|c cs IH]; cbn [mapM]; intros scored H.
  - now inversion H.
  - destruct (scoreChunk host words c) as [sc|] eqn:E; cbn [bind] in H;
      [|discriminate].
    destruct (mapM (scoreChunk host words) cs) as [scs|]; cbn [bind] in H;
      [|discriminate].
    inversion H; subst; cbn [map].
    destruct (scoreChunk_Normal _ _ _ _ E) as [_ [_ [-> _]]].
    now rewrite (IH scs eq_refl).
Qed.

Lemma slice0_as_firstn {A : Type} (l : list A) (e : Z) :
  exists n, slice0 l e = firstn n l /\
            ((Z.of_nat (List.length l) <= e)%Z -> (List.length l <= n)%nat).
Proof.
  unfold slice0; destruct (Z.ltb_spec e 0); eexists; split;
    try reflexivity; lia.
Qed.

(** X9. The reranker invents and repeats nothing: the chunks it returns,
    together with those it cuts off, are the candidates up to their order,
    and nothing is cut off when topK is at least the number of
    candidates. *)
Theorem optimalReranking_keeps_candidates host query chunks topK out :
  optimalReranking host query chunks topK = Normal out ->
  exists cut,
    Permutation (map chunk (out ++ cut)%list) chunks /\
    ((Z.of_nat (List.length chunks) <= topK)%Z -> cut = []).
Proof.
  unfold optimalReranking; intros H.
  destruct (mapM (scoreChunk host (queryWords query)) chunks) as [scored|] eqn:E;
    cbn [bind] in H; [|discriminate].
  inversion H; subst; clear H.
  destruct (slice0_as_firstn (sortBy byCombinedScore scored) topK)
    as [n [-> Hn]].
  exists (skipn n (sortBy byCombinedScore scored)); split.
  - rewrite firstn_skipn, <- (mapM_scoreChunk_chunks _ _ _ _ E).
    apply Permutation_map, Permutation_sym, sortBy_perm.
  - intros Hk; apply skipn_all2, Hn.
    now rewrite sortBy_length, (mapM_length _ _ _ E).
Qed.

Lemma optimalReranking_keeps_candidates_witness :
  exists cut,
    Permutation (map chunk (Sample.reranked ++ cut)%list) Sample.candidates /\
    ((Z.of_nat (List.length Sample.candidates) <= 5)%Z -> cut = []).
Proof.
  apply (optimalReranking_keeps_candidates Sample.literalOnlyHost
           "termination clause" Sample.candidates 5 Sample.reranked).
  vm_compute; reflexivity.
Defined.

(** X10. A query without a word of three characters or more cannot make the
    reranker throw, whatever the engine and the candidates: no regular
    expression is built, the bm25 and the phrase score are 0 and the chunks
    are ranked on 0.45 semantic + 0.05 position + 0.05 length. *)
Theorem optimalReranking_short_words host query chunks topK :
  queryWords query = [] ->
  exists out,
    optimalReranking host query chunks topK = Normal out /\
    forall sc, In sc out ->
      Scores.phrase (scores sc) = 0 /\ Scores.bm25 (scores sc) = "0.00" /\
      combinedScore sc ==
        (45 # 100) * semanticScore (chunk sc) +
        (5 # 100) * positionScore (chunk sc) +
        (5 # 100) * lengthScore (chunk sc).
Proof.
  intros Hw.
  destruct (mapM_total (scoreChunk host (queryWords query)) chunks)
    as [scored Hs].
  { intros c _; rewrite Hw; eexists; reflexivity. }
  assert (Hret : optimalReranking host query chunks topK =
                 Normal (slice0 (sortBy byCombinedScore scored) topK)).
  { unfold optimalReranking; now rewrite Hs. }
  eexists; split; [exact Hret|]; intros sc Hin.
  destruct (optimalReranking_In _ _ _ _ _ _ Hret Hin) as [c [_ Hc]].
  rewrite Hw in Hc; cbn in Hc; inversion Hc; subst; cbn.
  repeat split; unfold combine; ring.
Qed.

Lemma optimalReranking_short_words_witness :
  exists out,
    optimalReranking Sample.literalOnlyHost "is it ok" Sample.candidates 5
      = Normal out /\
    forall sc, In sc out ->
      Scores.phrase (scores sc) = 0 /\ Scores.bm25 (scores sc) = "0.00" /\
      combinedScore sc ==
        (45 # 100) * semanticScore (chunk sc) +
        (5 # 100) * positionScore (chunk sc) +
        (5 # 100) * lengthScore (chunk sc).
Proof.
  apply (optimalReranking_short_words Sample.literalOnlyHost "is it ok"
           Sample.candidates 5).
  reflexivity.
Defined.

(** ** Questions, continued *)

Lemma scoreChunk_throws host words c w :
  In w words -> unbalanced 0 false false w = true ->
  exists e, scoreChunk host words c = Throw e.
Proof.
  intros Hin Hw; unfold scoreChunk, bm25Score.
  destruct (foldM_Throw
              (bm25Step host (toLowerCase (text c))
                 (ofNat (List.length (split_ws (toLowerCase (text c))))))
              w words Hin) with (s := 0) as [e He].
  - intros s; unfold bm25Step, termFrequency.
    rewrite (RegExp_new_unbalanced host w Hw); eexists; reflexivity.
  - rewrite He; now exists e.
Qed.

Lemma mapIndexedFrom_length {A B : Type} (f : A -> nat -> B) (l : list A) :
  forall i, List.length (mapIndexedFrom f i l) = List.length l.
Proof. induction l as [|x l IH]; intros i; cbn; [reflexivity|now rewrite IH]. Qed.

Lemma retrievedChunks_length results docs :
  List.length (retrievedChunks results docs) = List.length docs.
Proof. apply mapIndexedFrom_length. Qed.

(** X11. A question with a word that is not a regular expression (an
    unclosed parenthesis, say) is answered with status 500 as soon as the
    search finds a document; the collection is left as it is. *)
Theorem post_ask_regex_failure host emb gen search req coll q e results
    doc docs w :
  question req = Some q -> q <> "" ->
  emb q = Normal e ->
  search {| queryEmbeddings := [e];
            nResults := OPTIMAL_RETRIEVAL_initialFetch;
            where_sessionId := if truthyString (ask_sessionId req)
                               then ask_sessionId req else None |} coll
    = Normal results ->
  documents0 results = Some (doc :: docs) ->
  In w (queryWords q) -> unbalanced 0 false false w = true ->
  exists message,
    post_ask host emb gen search req coll = (Status 500 message, coll).
Proof.
  intros Hq Hne He Hs Hdocs Hin Hw.
  unfold post_ask, tryCatch; rewrite Hq.
  destruct (String.eqb_spec q ""); [contradiction|].
  unfold bindH at 1, lift, getEmbedding; rewrite He.
  unfold bindH at 1; rewrite Hs, Hdocs.
  unfold bindH at 1, optimalReranking.
  unfold retrievedChunks, mapIndexed; cbn [mapIndexedFrom].
  match goal with
  | |- context [mapM ?f (?c :: ?cs)] =>
      destruct (scoreChunk_throws host (queryWords q) c w Hin Hw) as [err Herr];
      rewrite (mapM_Throw_head f c cs err Herr)
  end.
  cbn [bind]; now eexists.
Qed.

Lemma post_ask_regex_failure_witness :
  exists message,
    post_ask Sample.literalOnlyHost Sample.embeddings Sample.generate
      Fixture.oneHit Fixture.sectionQuestion Sample.collection
    = (Status 500 message, Sample.collection).
Proof.
  apply (post_ask_regex_failure Sample.literalOnlyHost Sample.embeddings
           Sample.generate Fixture.oneHit Fixture.sectionQuestion
           Sample.collection "terms of section 3(b" [1; 0]
           {| documents0 := Some ["The termination clause applies."];
              distances0 := [1 # 4];
              metadatas0 := [Some (Sample.metaOf "s1" "A.pdf" 0 31)] |}
           "The termination clause applies." [] "3(b").
  - reflexivity.
  - discriminate.
  - reflexivity.
  - reflexivity.
  - reflexivity.
  - vm_compute; right; right; left; reflexivity.
  - reflexivity.
Defined.

(** The keys of the map from file name to texts are the file names of the
    chunks, each once. *)
Lemma documentSources_keys (reranked : list ScoredChunk) :
  NoDup (map fst (documentSources reranked)) /\
  forall f, In f (map fst (documentSources reranked)) <->
            In f (map (fun c => orUnknown (metadata_filename (chunk c))) reranked).
Proof.
  unfold documentSources.
  set (step := fun (m : JsMap (list string)) (c : ScoredChunk) => _).
  assert (H : forall l m,
            NoDup (map fst m) ->
            NoDup (map fst (fold_left step l m)) /\
            forall f, In f (map fst (fold_left step l m)) <->
                      In f (map fst m) \/
                      In f (map (fun c => orUnknown (metadata_filename (chunk c))) l)).
  { induction l as [|c l IH]; intros m Hm; cbn [fold_left map].
    - split; [assumption|intros f; cbn; tauto].
    - assert (Hkeys : (In (orUnknown (metadata_filename (chunk c))) (map fst m) /\
                       map fst (step m c) = map fst m) \/
                      (~ In (orUnknown (metadata_filename (chunk c))) (map fst m) /\
                       map fst (step m c) =
                       (map fst m ++ [orUnknown (metadata_filename (chunk c))])%list)).
      { unfold step; rewrite Map_update_keys; unfold Map_has.
        destruct (Map_get m (orUnknown (metadata_filename (chunk c))))
          as [v|] eqn:E.
        - left; split; [|reflexivity].
          apply Map_get_Some_In in E.
          change (orUnknown (metadata_filename (chunk c)))
            with (fst (orUnknown (metadata_filename (chunk c)), v)).
          now apply in_map.
        - right; split; [now apply Map_get_None|].
          now apply Map_set_keys_fresh. }
      destruct Hkeys as [[Hin Hk]|[Hnin Hk]].
      + destruct (IH (step m c)) as [Hnd Hiff]; [now rewrite Hk|].
        split; [assumption|]; intros f; rewrite Hiff, Hk; cbn [In].
        split; [tauto|intros [?|[<-|?]]; tauto].
      + destruct (IH (step m c)) as [Hnd Hiff].
        { rewrite Hk; apply NoDup_app; [assumption|repeat constructor; cbn; tauto|].
          intros x Hx [<-|[]]; contradiction. }
        split; [assumption|]; intros f; rewrite Hiff, Hk, in_app_iff; cbn [In].
        tauto. }
  destruct (H reranked [] (NoDup_nil _)) as [Hnd Hiff]; split; [assumption|].
  intros f; rewrite Hiff; cbn; tauto.
Qed.

(** X12. When the words of the question compile and the services answer, a
    question on a non-empty search result is answered with at most five
    sources: as many as documents were found, up to five; the retrieval
    information counts the documents found, the sources and the distinct
    file names among the sources, of which there is at least one. *)
Theorem post_ask_answers host emb gen search req coll q e results docs :
  question req = Some q -> q <> "" ->
  emb q = Normal e ->
  search {| queryEmbeddings := [e];
            nResults := OPTIMAL_RETRIEVAL_initialFetch;
            where_sessionId := if truthyString (ask_sessionId req)
                               then ask_sessionId req else None |} coll
    = Normal results ->
  documents0 results = Some docs -> docs <> [] ->
  (forall w, In w (queryWords q) -> exists re, RegExp_new host w = Normal re) ->
  (forall p, exists r, gen p OPTIMAL_LLM_PARAMS = Normal r) ->
  exists body info,
    post_ask host emb gen search req coll = (Json body, coll) /\
    retrievalInfo body = Some info /\
    initialRetrieved info = List.length docs /\
    afterReranking info = List.length (sources body) /\
    List.length (sources body) = Nat.min 5 (List.length docs) /\
    documentsSearched info =
      List.length (nodup string_dec (map source_filename (sources body))) /\
    (1 <= documentsSearched info <= afterReranking info)%nat.
Proof.
  intros Hq Hne He Hs Hdocs Hnonempty Hre Hgen.
  destruct (optimalReranking_sorted_topK host q (retrievedChunks results docs)
              5 Hre) as [out [scored [Hout [_ [Hlen _]]]]].
  rewrite retrievedChunks_length in Hlen.
  destruct (Hgen (prompt q (context out))) as [r Hr].
  destruct (documentSources_keys out) as [Hnd Hkeys].
  assert (Hpost : post_ask host emb gen search req coll =
            (Json
               {| answer := r;
                  sources :=
                    map (fun c =>
                           {| source_text := text (chunk c);
                              source_filename :=
                                orUnknown (metadata_filename (chunk c));
                              source_scores := scores c |}) out;
                  searchedDocuments := None;
                  retrievalInfo :=
                    Some {| initialRetrieved :=
                              List.length (retrievedChunks results docs);
                            afterReranking := List.length out;
                            documentsSearched :=
                              List.length (documentSources out);
                            settings :=
                              {| retrievalCount := OPTIMAL_RETRIEVAL_initialFetch;
                                 rerankCount := OPTIMAL_RETRIEVAL_afterReranking;
                                 settings_temperature :=
                                   temperature OPTIMAL_LLM_PARAMS;
                                 topP := top_p OPTIMAL_LLM_PARAMS;
                                 topK := top_k OPTIMAL_LLM_PARAMS;
                                 settings_strategy := "optimal" |} |} |},
             coll)).
  { unfold post_ask, tryCatch; rewrite Hq.
    destruct (String.eqb_spec q ""); [contradiction|].
    unfold bindH at 1, lift, getEmbedding; rewrite He.
    unfold bindH at 1; rewrite Hs, Hdocs.
    destruct docs as [|d ds]; [contradiction|].
    unfold bindH at 1.
    change OPTIMAL_RETRIEVAL_afterReranking with (Z.of_nat 5); rewrite Hout.
    unfold bindH, askOllama, ret; now rewrite Hr. }
  eexists; eexists; split; [exact Hpost|]; cbn [retrievalInfo sources
    initialRetrieved afterReranking documentsSearched].
  rewrite retrievedChunks_length, length_map, map_map; cbn [source_filename].
  set (names := map (fun c => orUnknown (metadata_filename (chunk c))) out) in *.
  assert (Hcount : List.length (documentSources out) =
                   List.length (nodup string_dec names)).
  { rewrite <- (length_map fst); apply Permutation_length.
    apply NoDup_Permutation; [assumption|apply NoDup_nodup|].
    intros f; rewrite Hkeys, nodup_In; reflexivity. }
  repeat split; try assumption; try reflexivity.
  - rewrite <- (length_map fst).
    destruct out as [|sc out']; [destruct docs; [contradiction|discriminate]|].
    assert (Hin : In (orUnknown (metadata_filename (chunk sc)))
                     (map fst (documentSources (sc :: out'))))
      by (apply Hkeys; left; reflexivity).
    destruct (map fst (documentSources (sc :: out'))); [contradiction|cbn; lia].
  - rewrite <- (length_map fst), <- (length_map
      (fun c => orUnknown (metadata_filename (chunk c))) out).
    apply NoDup_incl_length; [assumption|].
    intros f Hf; now apply Hkeys.
Qed.

Lemma post_ask_answers_witness :
  exists body info,
    post_ask Sample.literalOnlyHost Sample.embeddings Sample.generate
      Fixture.oneHit Fixture.clauseQuestion Sample.collection
    = (Json body, Sample.collection) /\
    retrievalInfo body = Some info /\
    initialRetrieved info = 1%nat /\
    afterReranking info = List.length (sources body) /\
    List.length (sources body) = Nat.min 5 1 /\
    documentsSearched info =
      List.length (nodup string_dec (map source_filename (sources body))) /\
    (1 <= documentsSearched info <= afterReranking info)%nat.
Proof.
  apply (post_ask_answers Sample.literalOnlyHost Sample.embeddings
           Sample.generate Fixture.oneHit Fixture.clauseQuestion
           Sample.collection "termination clause" [1; 0]
           {| documents0 := Some ["The termination clause applies."];
              distances0 := [1 # 4];
              metadatas0 := [Some (Sample.metaOf "s1" "A.pdf" 0 31)] |}
           ["The termination clause applies."]).
  - reflexivity.
  - discriminate.
  - reflexivity.
  - reflexivity.
  - reflexivity.
  - discriminate.
  - intros w Hw; vm_compute in Hw.
    destruct Hw as [<-|[<-|[]]]; eexists; reflexivity.
  - intros p; eexists; reflexivity.
Defined.

(** ** The session registry, continued *)

(** A session is listed exactly when it stands for its identifier. *)
Lemma listed_session (c : Collection) (session : Session) :
  In session (Map_values (fold_left sessionsStep (map meta c) [])) <->
  sessionOf (session_sessionId session) c = Some session.
Proof.
  destruct (sessionsMap_invariant c) as [Hnd Hget]; cbv zeta in *.
  set (m := fold_left sessionsStep (map meta c) []) in *.
  assert (Hkey : forall k v, sessionOf k c = Some v -> session_sessionId v = k).
  { intros k v H; unfold sessionOf in H.
    destruct (find (whereSessionId k) c); [|discriminate].
    destruct (String.eqb k ""); [discriminate|now inversion H]. }
  split.
  - unfold Map_values; intros H; apply in_map_iff in H.
    destruct H as [[k v] [Hv Hin]]; cbn in Hv; subst v.
    apply (Map_get_In _ _ _ Hnd) in Hin; rewrite Hget in Hin.
    now rewrite (Hkey _ _ Hin).
  - intros H; rewrite <- Hget in H; apply Map_get_Some_In in H.
    unfold Map_values; apply in_map_iff; now eexists; split; [|exact H].
Qed.

Lemma chunkTotal_cons (k : string) (v : Session) (m : JsMap Session) :
  chunkTotal ((k, v) :: m) = (session_chunkCount v + chunkTotal m)%nat.
Proof. reflexivity. Qed.

Lemma list_sum_update (m : JsMap Session) (k : string) :
  chunkTotal (Map_update m k countedOnceMore)
  = (chunkTotal m + if Map_has m k then 1 else 0)%nat.
Proof.
  unfold Map_has; induction m as [|[k0 v0] m IH]; [reflexivity|].
  cbn [Map_update Map_get]; destruct (String.eqb k0 k).
  - rewrite !chunkTotal_cons; cbn [countedOnceMore session_chunkCount]; lia.
  - rewrite !chunkTotal_cons, IH; lia.
Qed.

Lemma list_sum_set_fresh (m : JsMap Session) (k : string) (v : Session) :
  Map_get m k = None ->
  chunkTotal (Map_set m k v) = (chunkTotal m + session_chunkCount v)%nat.
Proof.
  induction m as [|[k0 v0] m IH]; cbn [Map_set Map_get].
  - intros _; rewrite chunkTotal_cons; unfold chunkTotal; cbn; lia.
  - destruct (String.eqb k0 k); [discriminate|]; intros H.
    rewrite !chunkTotal_cons, (IH H); lia.
Qed.

Lemma sessionsStep_sum (m : JsMap Session) (x : Meta.t) :
  chunkTotal (sessionsStep m x)
  = (chunkTotal m + if truthyString (Meta.sessionId x) then 1 else 0)%nat.
Proof.
  unfold sessionsStep, truthyString.
  destruct (Meta.sessionId x) as [s|]; [|cbn iota; lia].
  destruct (String.eqb s ""); cbn [negb]; [cbn iota; lia|].
  change (fun session : Session =>
            {| session_sessionId := session_sessionId session;
               session_filename := session_filename session;
               session_chunkCount := S (session_chunkCount session) |})
    with countedOnceMore.
  rewrite list_sum_update; unfold Map_has.
  destruct (Map_get m s) as [v|] eqn:E.
  - now rewrite E.
  - rewrite (list_sum_set_fresh _ _ _ E), Map_get_set, String.eqb_refl.
    cbn; lia.
Qed.

(** X13. When the index serves the call with the records of the
    collection, the chunk counts of the sessions listed by [/sessions] add
    up to the number of chunks of the collection that carry a non-empty
    session identifier: every such chunk is counted once. *)
Theorem get_sessions_counts_every_chunk
    (get : option string -> Collection -> Completion GetResponse)
    (c : Collection) :
  get None c = Normal (answerOf (collection_get None c)) ->
  exists sessions,
    get_sessions get c = (Json sessions, c) /\
    list_sum (map session_chunkCount sessions) =
    List.length (filter (fun r => truthyString (Meta.sessionId (meta r))) c).
Proof.
  intros Hserved; eexists; split; [now apply get_sessions_served|].
  assert (H : forall l m,
            chunkTotal (fold_left sessionsStep (map meta l) m)
            = (chunkTotal m +
               List.length
                 (filter (fun r => truthyString (Meta.sessionId (meta r))) l))%nat).
  { induction l as [|r l IH]; intros m; cbn [map fold_left filter];
      [cbn; lia|].
    rewrite IH, sessionsStep_sum.
    destruct (truthyString (Meta.sessionId (meta r))); cbn [List.length]; lia. }
  exact (H c []).
Qed.

Lemma get_sessions_counts_every_chunk_witness :
  exists sessions,
    get_sessions Sample.get Sample.collection =
      (Json sessions, Sample.collection) /\
    list_sum (map session_chunkCount sessions) = 3%nat.
Proof.
  apply (get_sessions_counts_every_chunk Sample.get Sample.collection).
  reflexivity.
Defined.

(** ** Deletion, continued *)

Lemma collection_delete_no_session (s : string) (c : Collection) :
  filter (whereSessionId s)
    (collection_delete (map id (filter (whereSessionId s) c)) c) = [].
Proof.
  unfold collection_delete.
  assert (H : forall r,
            In r (filter (fun r => negb (existsb (String.eqb (id r))
                                     (map id (filter (whereSessionId s) c)))) c) ->
            whereSessionId s r = false).
  { intros r Hr; apply filter_In in Hr; destruct Hr as [Hin Hr].
    destruct (whereSessionId s r) eqn:E; [|reflexivity].
    apply negb_true_iff in Hr.
    assert (Hex : existsb (String.eqb (id r))
                    (map id (filter (whereSessionId s) c)) = true);
      [|congruence].
    apply existsb_exists; exists (id r); split; [|apply String.eqb_refl].
    apply in_map, filter_In; now split. }
  induction (filter _ c) as [|r l IH]; [reflexivity|].
  cbn [filter]; rewrite (H r (or_introl eq_refl)).
  apply IH; intros r' Hr'; apply H; now right.
Qed.

Lemma delete_session_deletes get delete (s : string) (c : Collection) :
  serves get delete ->
  filter (whereSessionId s) c <> [] ->
  snd (delete_session get delete s c) =
  collection_delete (map id (filter (whereSessionId s) c)) c.
Proof.
  intros [Hget Hdelete] Hg.
  rewrite (delete_session_served_group get delete s c (Hget _ _) Hg).
  now rewrite Hdelete.
Qed.

Lemma filter_nil_find {A : Type} (f : A -> bool) (l : list A) :
  filter f l = [] -> find f l = None.
Proof.
  induction l as [|x l IH]; cbn; [reflexivity|].
  destruct (f x); [discriminate|exact IH].
Qed.

(** X14. A deleted session is gone: with an index that serves every call,
    after the deletion of a session that has chunks, deleting the session
    again is answered with 404, and [/sessions] lists no session of that
    identifier. *)
Theorem delete_session_is_final
    (get : option string -> Collection -> Completion GetResponse)
    (delete : list string -> Collection -> Completion Collection)
    (s : string) (c : Collection) :
  serves get delete -> filter (whereSessionId s) c <> [] ->
  delete_session get delete s (snd (delete_session get delete s c))
    = (Status 404 "Session not found",
       snd (delete_session get delete s c)) /\
  exists sessions,
    get_sessions get (snd (delete_session get delete s c))
      = (Json sessions, snd (delete_session get delete s c)) /\
    forall session, In session sessions -> session_sessionId session <> s.
Proof.
  intros Hserves Hg; rewrite (delete_session_deletes get delete s c Hserves Hg).
  pose proof (collection_delete_no_session s c) as Hnone.
  set (rest := collection_delete _ c) in *.
  destruct Hserves as [Hget Hdelete]; split.
  - rewrite (delete_session_served get delete s rest (Hget _ _)).
    now rewrite Hnone.
  - eexists; split; [apply get_sessions_served, Hget|].
    intros session Hin Heq.
    apply listed_session in Hin; rewrite Heq in Hin.
    unfold sessionOf in Hin; now rewrite (filter_nil_find _ _ Hnone) in Hin.
Qed.

Lemma delete_session_is_final_witness :
  delete_session Sample.get Sample.delete "s1"
    (snd (delete_session Sample.get Sample.delete "s1" Sample.collection))
    = (Status 404 "Session not found",
       snd (delete_session Sample.get Sample.delete "s1" Sample.collection)) /\
  exists sessions,
    get_sessions Sample.get
      (snd (delete_session Sample.get Sample.delete "s1" Sample.collection))
      = (Json sessions,
         snd (delete_session Sample.get Sample.delete "s1" Sample.collection)) /\
    forall session, In session sessions -> session_sessionId session <> "s1".
Proof.
  apply (delete_session_is_final Sample.get Sample.delete "s1"
           Sample.collection).
  - split; reflexivity.
  - discriminate.
Defined.

Lemma other_sessions_kept (s k : string) (c : Collection) :
  k <> s ->
  sessionOf k (filter (fun r => negb (whereSessionId s r)) c) = sessionOf k c.
Proof.
  intros Hk.
  assert (Hexcl : forall r, whereSessionId k r = true ->
                            whereSessionId s r = false).
  { intros r; rewrite !whereSessionId_meta.
    destruct (Meta.sessionId (meta r)) as [x|]; [|discriminate].
    intros H; apply String.eqb_eq in H; subst x; now apply String.eqb_neq. }
  unfold sessionOf.
  assert (Hfilter : filter (whereSessionId k)
                      (filter (fun r => negb (whereSessionId s r)) c)
                    = filter (whereSessionId k) c).
  { induction c as [|r c IH]; cbn [filter]; [reflexivity|].
    destruct (whereSessionId s r) eqn:Es; cbn [negb filter].
    - destruct (whereSessionId k r) eqn:Ek; [|exact IH].
      apply Hexcl in Ek; congruence.
    - now rewrite IH. }
  assert (Hfind : find (whereSessionId k)
                    (filter (fun r => negb (whereSessionId s r)) c)
                  = find (whereSessionId k) c).
  { clear Hfilter; induction c as [|r c IH]; cbn [filter find]; [reflexivity|].
    destruct (whereSessionId s r) eqn:Es; cbn [negb find].
    - destruct (whereSessionId k r) eqn:Ek; [|exact IH].
      apply Hexcl in Ek; congruence.
    - destruct (whereSessionId k r); [reflexivity|exact IH]. }
  now rewrite Hfind, Hfilter.
Qed.

(** X15. With an index that serves every call, in a collection with
    unique chunk identifiers, deleting a session that has chunks takes its
    entry, and only its entry, from the list of [/sessions]: the other
    sessions are listed with the file name and the chunk count they had. *)
Theorem delete_session_keeps_others
    (get : option string -> Collection -> Completion GetResponse)
    (delete : list string -> Collection -> Completion Collection)
    (s : string) (c : Collection) :
  serves get delete ->
  NoDup (map id c) -> filter (whereSessionId s) c <> [] ->
  exists before after,
    get_sessions get c = (Json before, c) /\
    get_sessions get (snd (delete_session get delete s c))
      = (Json after, snd (delete_session get delete s c)) /\
    forall session,
      In session after <->
      In session before /\ session_sessionId session <> s.
Proof.
  intros Hserves Hnd Hg.
  rewrite (delete_session_deletes get delete s c Hserves Hg),
          (collection_delete_session s c Hnd).
  destruct Hserves as [Hget _].
  set (rest := filter (fun r => negb (whereSessionId s r)) c).
  eexists; eexists; split; [apply get_sessions_served, Hget|].
  split; [apply get_sessions_served, Hget|].
  intros session; rewrite !listed_session.
  destruct (String.eqb_spec (session_sessionId session) s) as [Heq|Hne].
  - split; [|tauto]; intros H; exfalso.
    unfold sessionOf in H; rewrite Heq in H.
    assert (Hnone : filter (whereSessionId s) rest = []).
    { unfold rest; clear; induction c as [|r c IH]; cbn [filter]; [reflexivity|].
      destruct (whereSessionId s r) eqn:E; cbn [negb filter]; [exact IH|].
      now rewrite E. }
    now rewrite (filter_nil_find _ _ Hnone) in H.
  - unfold rest; rewrite (other_sessions_kept s _ c Hne); tauto.
Qed.

Lemma delete_session_keeps_others_witness :
  exists before after,
    get_sessions Sample.get Sample.collection
      = (Json before, Sample.collection) /\
    get_sessions Sample.get
      (snd (delete_session Sample.get Sample.delete "s1" Sample.collection))
      = (Json after,
         snd (delete_session Sample.get Sample.delete "s1" Sample.collection)) /\
    forall session,
      In session after <->
      In session before /\ session_sessionId session <> "s1".
Proof.
  apply (delete_session_keeps_others Sample.get Sample.delete "s1"
           Sample.collection).
  - split; reflexivity.
  - repeat constructor; cbn; intuition discriminate.
  - discriminate.
Defined.

(** ** Clause analysis *)



(** ** Text extraction *)

(** X17. Every failure of [extractTextFromFile] is an error whose message
    starts with "Could not read the file: "; a text is only returned for an
    extension that is .pdf or .docx up to case, and for any other extension
    the error is the wrapped "Unsupported file type" one, whatever the
    readers would do. *)
Theorem extractTextFromFile_errors (Buffer : Type)
    (extname : string -> string) (readFile : string -> Completion Buffer)
    (parsePdf : Buffer -> Completion string)
    (rawText : string -> Completion string) (filePath name : string) :
  let extension := toLowerCase (extname name) in
  match extractTextFromFile Buffer extname readFile parsePdf rawText
          filePath name with
  | Normal _ => extension = ".pdf" \/ extension = ".docx"
  | Throw e => exists m, e = Error ("Could not read the file: " ++ m)
  end /\
  (extension <> ".pdf" -> extension <> ".docx" ->
   extractTextFromFile Buffer extname readFile parsePdf rawText filePath name =
   Throw (Error "Could not read the file: Unsupported file type. Please upload a PDF or DOCX file.")).
Proof.
  cbv zeta; unfold extractTextFromFile, readByExtension.
  destruct (String.eqb_spec (toLowerCase (extname name)) ".pdf") as [Hp|Hp].
  - split; [|intros H; contradiction].
    destruct (readFile filePath) as [buffer|e]; cbn [bind];
      [destruct (parsePdf buffer)|]; try (left; assumption); now eexists.
  - destruct (String.eqb_spec (toLowerCase (extname name)) ".docx") as [Hd|Hd].
    + split; [|intros _ H; contradiction].
      destruct (rawText filePath); [right; assumption|now eexists].
    + split; [now eexists|reflexivity].
Qed.

(** X18. An upload whose file name has another extension than .pdf or .docx
    (up to case) is answered with status 500 and the wrapped "Unsupported
    file type" message; nothing is added to the index. *)
Theorem post_upload_unsupported (Buffer : Type)
    (extname : string -> string) (readFile : string -> Completion Buffer)
    (parsePdf : Buffer -> Completion string)
    (rawText : string -> Completion string)
    emb split unlink add (file : File) (c : Collection) :
  toLowerCase (extname (originalname file)) <> ".pdf" ->
  toLowerCase (extname (originalname file)) <> ".docx" ->
  post_upload emb split
    (extractTextFromFile Buffer extname readFile parsePdf rawText)
    unlink add (Some file) c =
  (Status 500
     "Could not read the file: Unsupported file type. Please upload a PDF or DOCX file.",
   c).
Proof.
  intros Hp Hd; unfold post_upload, tryCatch, bindH, lift.
  unfold extractTextFromFile, readByExtension.
  destruct (String.eqb_spec (toLowerCase (extname (originalname file))) ".pdf");
    [contradiction|].
  destruct (String.eqb_spec (toLowerCase (extname (originalname file))) ".docx");
    [contradiction|reflexivity].
Qed.

Lemma post_upload_unsupported_witness :
  post_upload Sample.embeddings Sample.splitter
    (extractTextFromFile string Fixture.extname Fixture.readFile
       Fixture.parsePdf Fixture.rawText)
    Sample.unlink Sample.add (Some Fixture.spreadsheet) Sample.collection =
  (Status 500
     "Could not read the file: Unsupported file type. Please upload a PDF or DOCX file.",
   Sample.collection).
Proof.
  apply (post_upload_unsupported string Fixture.extname Fixture.readFile
           Fixture.parsePdf Fixture.rawText Sample.embeddings Sample.splitter
           Sample.unlink Sample.add Fixture.spreadsheet Sample.collection);
    vm_compute; discriminate.
Defined.

(** ** Chunks of a document *)

Lemma trimStart_starts (s : string) : startsWithSpace (trimStart s) = false.
Proof.
  induction s as [|c s IH]; cbn; [reflexivity|].
  destruct (isWhiteSpace c) eqn:E; [exact IH|cbn; exact E].
Qed.

Lemma trimStart_fixed (s : string) :
  startsWithSpace s = false -> trimStart s = s.
Proof. destruct s as [|c s]; cbn; [reflexivity|now intros ->]. Qed.

Lemma trimEnd_starts (s : string) :
  startsWithSpace s = false -> startsWithSpace (trimEnd s) = false.
Proof.
  destruct s as [|c s]; cbn; [reflexivity|]; intros H.
  destruct (trimEnd s); cbn; now rewrite ?H.
Qed.

Lemma trimEnd_cons (c : ascii) (s : string) :
  trimEnd (String c s) =
  match trimEnd s with
  | EmptyString => if isWhiteSpace c then EmptyString else String c EmptyString
  | rest => String c rest
  end.
Proof. reflexivity. Qed.

Lemma trimEnd_idempotent (s : string) : trimEnd (trimEnd s) = trimEnd s.
Proof.
  induction s as [|c s IH]; [reflexivity|].
  rewrite (trimEnd_cons c s).
  destruct (trimEnd s) as [|c' r] eqn:E.
  - destruct (isWhiteSpace c) eqn:Ec; [reflexivity|].
    rewrite trimEnd_cons; cbn [trimEnd]; now rewrite Ec.
  - rewrite trimEnd_cons, IH; reflexivity.
Qed.

Lemma trim_idempotent (s : string) : trim (trim s) = trim s.
Proof.
  unfold trim.
  rewrite (trimStart_fixed (trimEnd (trimStart s))), trimEnd_idempotent;
    [reflexivity|].
  apply trimEnd_starts, trimStart_starts.
Qed.

Lemma mapIndexedFrom_In {A B : Type} (f : A -> nat -> B) (l : list A) (y : B) :
  forall i, In y (mapIndexedFrom f i l) -> exists x j, In x l /\ y = f x j.
Proof.
  induction l as [|x l IH]; intros i; cbn; [tauto|].
  intros [<-|H]; [exists x, i; auto|].
  destruct (IH _ H) as [x' [j [Hx' Hy]]]; exists x', j; auto.
Qed.

Lemma mapIndexedFrom_indices {A B : Type} (f : A -> nat -> B) (g : B -> nat)
    (l : list A) :
  (forall x j, g (f x j) = j) ->
  forall i, map g (mapIndexedFrom f i l) = seq i (List.length l).
Proof.
  intros Hg; induction l as [|x l IH]; intros i; cbn; [reflexivity|].
  now rewrite Hg, IH.
Qed.

(** X19. The chunks that [optimalChunkText] makes of the documents of the
    splitter are as many as the documents; their positions are 0, 1, 2, ...
    in order; the text of a chunk has no white space at either end, its
    length is the one recorded and its word count is at least 1 (also for
    an empty text). *)
Theorem optimalChunkText_metadata split (text : string) (docs : list string) :
  split text = Normal docs ->
  exists chunks,
    optimalChunkText split text = Normal chunks /\
    List.length chunks = List.length docs /\
    map (fun c => ChunkMeta.position (chunk_metadata c)) chunks
      = seq 0 (List.length docs) /\
    forall c, In c chunks ->
      trim (chunk_text c) = chunk_text c /\
      ChunkMeta.length (chunk_metadata c) = String.length (chunk_text c) /\
      (1 <= ChunkMeta.wordCount (chunk_metadata c))%nat.
Proof.
  intros Hs; unfold optimalChunkText; rewrite Hs; cbn [bind].
  eexists; split; [reflexivity|]; unfold mapIndexed; split; [|split].
  - apply mapIndexedFrom_length.
  - now apply mapIndexedFrom_indices.
  - intros c Hc; apply mapIndexedFrom_In in Hc.
    destruct Hc as [doc [j [_ ->]]]; cbn.
    split; [apply trim_idempotent|]; split; [reflexivity|].
    pose proof (split_ws_nonempty (trim doc)).
    destruct (split_ws (trim doc)); [contradiction|cbn; lia].
Qed.

Lemma optimalChunkText_metadata_witness :
  exists chunks,
    optimalChunkText Sample.splitter "  Rent is due.  " = Normal chunks /\
    List.length chunks = 1%nat /\
    map (fun c => ChunkMeta.position (chunk_metadata c)) chunks = seq 0 1 /\
    forall c, In c chunks ->
      trim (chunk_text c) = chunk_text c /\
      ChunkMeta.length (chunk_metadata c) = String.length (chunk_text c) /\
      (1 <= ChunkMeta.wordCount (chunk_metadata c))%nat.
Proof.
  apply (optimalChunkText_metadata Sample.splitter "  Rent is due.  "
           ["  Rent is due.  "]).
  reflexivity.
Defined.

(** ** The in-memory version: splitting *)

Lemma substring_zero_length (i : nat) (s : string) : substring i 0 s = "".
Proof.
  revert i; induction s as [|c s IH]; intros [|i]; cbn; auto.
Qed.

Lemma substring_app (s : string) :
  forall i n m,
    substring i (n + m) s = substring i n s ++ substring (i + n) m s.
Proof.
  induction s as [|c s IH]; intros i n m.
  - destruct i, n, m; reflexivity.
  - destruct i as [|i]; cbn [substring Nat.add].
    + destruct n as [|n]; cbn [substring Nat.add append]; [reflexivity|].
      now rewrite (IH 0%nat n m).
    + apply IH.
Qed.

Lemma substring_length (s : string) :
  forall i n,
    String.length (substring i n s) = Nat.min n (String.length s - i).
Proof.
  induction s as [|c s IH]; intros i n.
  - destruct i, n; reflexivity.
  - destruct i as [|i]; cbn [substring String.length Nat.sub].
    + destruct n as [|n]; cbn [substring String.length]; [reflexivity|].
      rewrite (IH 0%nat n), Nat.sub_0_r; cbn; reflexivity.
    + apply IH.
Qed.

Lemma substring_clip (s : string) :
  forall i n,
    (String.length s - i <= n)%nat ->
    substring i n s = substring i (String.length s - i) s.
Proof.
  induction s as [|c s IH]; intros i n H.
  - destruct i, n; reflexivity.
  - destruct i as [|i]; cbn [substring String.length Nat.sub] in *.
    + destruct n as [|n]; [lia|].
      cbn [substring]; f_equal.
      rewrite (IH 0%nat n) by lia; now rewrite Nat.sub_0_r.
    + now apply IH.
Qed.

Lemma substring_whole (s : string) : substring 0 (String.length s) s = s.
Proof. induction s as [|c s IH]; cbn; [reflexivity|now rewrite IH]. Qed.

Lemma splitFrom_spec (text : string) (chunkSize : nat) :
  (0 < chunkSize)%nat ->
  forall fuel i,
    (String.length text - i <= fuel)%nat ->
    exists chunks,
      InMemory.splitFrom fuel text chunkSize i = Some chunks /\
      fold_right append "" chunks
        = substring i (String.length text - i) text /\
      (forall k c, nth_error chunks k = Some c ->
         c = substring (i + k * chunkSize) chunkSize text /\
         (1 <= String.length c <= chunkSize)%nat) /\
      (String.length text - i <= List.length chunks * chunkSize
       < String.length text - i + chunkSize)%nat.
Proof.
  intros Hcs; induction fuel as [|fuel IH]; intros i Hfuel.
  - exists []; unfold InMemory.splitFrom.
    destruct (Nat.ltb_spec i (String.length text)); [lia|].
    replace (String.length text - i)%nat with 0%nat by lia.
    rewrite substring_zero_length; repeat split; cbn; try lia.
    all: destruct k; discriminate.
  - cbn [InMemory.splitFrom].
    destruct (Nat.ltb_spec i (String.length text)) as [Hlt|Hge].
    + destruct (IH (i + chunkSize)%nat) as [rest [-> [Hcat [Hnth Hcount]]]];
        [lia|].
      eexists; split; [reflexivity|]; split; [|split].
      * cbn [fold_right]; rewrite Hcat, <- substring_app.
        apply substring_clip; lia.
      * intros [|k] c H; cbn [nth_error] in H.
        -- inversion H; subst; cbn [Nat.mul]; rewrite Nat.add_0_r.
           split; [reflexivity|]; rewrite substring_length.
           split; [apply Nat.min_glb; lia|apply Nat.le_min_l].
        -- destruct (Hnth k c H) as [-> Hlen]; split; [|assumption].
           f_equal; cbn [Nat.mul]; lia.
      * destruct rest; cbn [List.length Nat.mul] in *; lia.
    + exists []; replace (String.length text - i)%nat with 0%nat by lia.
      rewrite substring_zero_length; repeat split; cbn; try lia.
      all: destruct k; discriminate.
Qed.

(** X20. For a positive chunk size, [splitTextIntoChunks] ends, and its
    chunks are a partition of the text: joined in order they give the text
    back, chunk k is the piece of at most chunkSize characters that starts
    at k * chunkSize, no chunk is empty, and there are as many chunks as the
    length of the text divided by chunkSize, rounded up. *)
Theorem splitTextIntoChunks_partition (text : string) (chunkSize : nat) :
  (0 < chunkSize)%nat ->
  exists chunks,
    InMemory.splitTextIntoChunks text chunkSize = Some chunks /\
    fold_right append "" chunks = text /\
    (forall k c, nth_error chunks k = Some c ->
       c = substring (k * chunkSize) chunkSize text /\
       (1 <= String.length c <= chunkSize)%nat) /\
    (String.length text <= List.length chunks * chunkSize
     < String.length text + chunkSize)%nat.
Proof.
  intros Hcs.
  destruct (splitFrom_spec text chunkSize Hcs (String.length text) 0)
    as [chunks [Hs [Hcat [Hnth Hcount]]]]; [lia|].
  rewrite Nat.sub_0_r in *; rewrite substring_whole in Hcat.
  exists chunks; repeat split; try assumption; try lia;
    destruct (Hnth k c H) as [Hc Hl]; [exact Hc|lia..].
Qed.

Lemma splitTextIntoChunks_partition_witness :
  exists chunks,
    InMemory.splitTextIntoChunks "notice period" 5 = Some chunks /\
    fold_right append "" chunks = "notice period" /\
    (forall k c, nth_error chunks k = Some c ->
       c = substring (k * 5) 5 "notice period" /\
       (1 <= String.length c <= 5)%nat) /\
    (String.length "notice period" <= List.length chunks * 5
     < String.length "notice period" + 5)%nat.
Proof.
  apply (splitTextIntoChunks_partition "notice period" 5); lia.
Defined.

(** ** The in-memory version: uploads *)

Lemma getEmbedding_Normal emb text e :
  emb text = Normal e -> getEmbedding emb text = Normal e.
Proof. intros H; unfold getEmbedding; now rewrite H. Qed.

Lemma getEmbedding_Throw emb text e :
  emb text = Throw e ->
  getEmbedding emb text = Throw (Error "Failed to get embedding from local AI").
Proof. intros H; unfold getEmbedding; now rewrite H. Qed.

(** The loop over the chunks, run to a failing chunk or to the end: the
    entry of the session holds the chunks embedded so far. *)
Lemma embedChunks_stores emb key (done : list string) :
  forall rest st data,
    Map_get st key = Some data ->
    (forall chunk, In chunk done -> exists e, emb chunk = Normal e) ->
    (rest = [] \/ exists bad post e, rest = bad :: post /\ emb bad = Throw e) ->
    exists st' data',
      InMemory.embedChunks emb key (done ++ rest)%list st =
        (match rest with
         | [] => Normal tt
         | _ => Throw (Error "Failed to get embedding from local AI")
         end, st') /\
      Map_get st' key = Some data' /\
      map InMemory.stored_text (InMemory.chunks data') =
        (map InMemory.stored_text (InMemory.chunks data) ++ done)%list /\
      InMemory.originalName data' = InMemory.originalName data /\
      map fst st' = map fst st.
Proof.
  induction done as [|chunk done IH]; intros rest st data Hget Hok Hrest.
  - cbn [app]; destruct Hrest as [->|[bad [post [e [-> He]]]]].
    + exists st, data; cbn; rewrite app_nil_r; auto.
    + exists st, data; cbn [InMemory.embedChunks].
      rewrite (getEmbedding_Throw _ _ _ He), app_nil_r; auto.
  - destruct (Hok chunk (or_introl eq_refl)) as [e He].
    cbn [app InMemory.embedChunks]; rewrite (getEmbedding_Normal _ _ _ He).
    set (pushed := fun d : InMemory.StoredData => _).
    destruct (IH rest (Map_update st key pushed) (pushed data))
      as [st' [data' [Hrun [Hget' [Htexts [Hname Hkeys]]]]]].
    + now rewrite Map_get_update, String.eqb_refl, Hget.
    + intros c Hc; apply Hok; now right.
    + assumption.
    + exists st', data'; split; [exact Hrun|]; split; [exact Hget'|].
      rewrite Htexts, Hname, Hkeys, Map_update_keys; unfold pushed; cbn.
      rewrite map_app, <- app_assoc; auto.
Qed.

Lemma Map_set_has {V : Type} (m : JsMap V) (k : string) (v : V) :
  In k (map fst (Map_set m k v)).
Proof.
  induction m as [|[k0 v0] m IH]; cbn; [now left|].
  destruct (String.eqb_spec k0 k) as [->|]; cbn; [now left|now right].
Qed.

(** X22. In the in-memory version a successful upload stores the whole
    text: the response counts the chunks stored for the session (the length
    of the text divided by 500, rounded up), the stored chunks joined in
    order are the extracted text, the original file name is kept and the
    session is listed by [/sessions]. *)
Theorem InMemory_upload_stores_text emb extract (file : File)
    (memoryStorage : InMemory.Storage) (text : string) :
  extract (path file) (originalname file) = Normal text ->
  (forall chunk, exists e, emb chunk = Normal e) ->
  exists body stored data,
    InMemory.post_upload emb extract (Some file) memoryStorage
      = Some (Json body, stored) /\
    Map_get stored (file_filename file) = Some data /\
    InMemory.chunkCount body = List.length (InMemory.chunks data) /\
    (String.length text <= InMemory.chunkCount body * 500
     < String.length text + 500)%nat /\
    fold_right append "" (map InMemory.stored_text (InMemory.chunks data))
      = text /\
    InMemory.originalName data = originalname file /\
    In (file_filename file) (InMemory.get_sessions stored).
Proof.
  intros Hx Hemb; unfold InMemory.post_upload; rewrite Hx.
  unfold InMemory.splitTextIntoChunks.
  destruct (splitFrom_spec text 500 ltac:(lia) (String.length text) 0)
    as [textChunks [-> [Hcat [_ Hcount]]]]; [lia|].
  rewrite Nat.sub_0_r in *; rewrite substring_whole in Hcat.
  set (started := Map_set memoryStorage (file_filename file) _).
  destruct (embedChunks_stores emb (file_filename file) textChunks []
              started {| InMemory.chunks := [];
                         InMemory.originalName := originalname file |})
    as [stored [data [Hrun [Hget [Htexts [Hname Hkeys]]]]]].
  - unfold started; now rewrite Map_get_set, String.eqb_refl.
  - intros chunk _; apply Hemb.
  - now left.
  - rewrite app_nil_r in Hrun; rewrite Hrun.
    cbn in Htexts, Hname.
    eexists; exists stored, data; split; [reflexivity|].
    cbn [InMemory.chunkCount]; repeat split; try assumption.
    + now rewrite <- (length_map InMemory.stored_text), Htexts.
    + lia.
    + lia.
    + now rewrite Htexts.
    + unfold InMemory.get_sessions; rewrite Hkeys; apply Map_set_has.
Qed.

Lemma InMemory_upload_stores_text_witness :
  exists body stored data,
    InMemory.post_upload Sample.embeddings Sample.extract
      (Some Sample.contract) [] = Some (Json body, stored) /\
    Map_get stored "3f2a" = Some data /\
    InMemory.chunkCount body = List.length (InMemory.chunks data) /\
    (55 <= InMemory.chunkCount body * 500 < 55 + 500)%nat /\
    fold_right append "" (map InMemory.stored_text (InMemory.chunks data))
      = "This agreement may be terminated on thirty days notice." /\
    InMemory.originalName data = "contract.pdf" /\
    In "3f2a" (InMemory.get_sessions stored).
Proof.
  apply (InMemory_upload_stores_text Sample.embeddings Sample.extract
           Sample.contract []
           "This agreement may be terminated on thirty days notice.").
  - reflexivity.
  - intros chunk; eexists; reflexivity.
Defined.

(** X23. In the in-memory version an upload whose embedding fails on a
    chunk is answered with status 500, and the session stays in the store
    with the chunks embedded before the failure: [/sessions] lists a
    document of which only a part is stored. *)
Theorem InMemory_upload_failure_keeps_part emb extract (file : File)
    (memoryStorage : InMemory.Storage) (text : string)
    (embedded : list string) (bad : string) (remaining : list string)
    (e : JsError) :
  extract (path file) (originalname file) = Normal text ->
  InMemory.splitTextIntoChunks text 500
    = Some (embedded ++ bad :: remaining)%list ->
  (forall chunk, In chunk embedded -> exists v, emb chunk = Normal v) ->
  emb bad = Throw e ->
  exists stored data,
    InMemory.post_upload emb extract (Some file) memoryStorage
      = Some (Status 500 "Failed to get embedding from local AI", stored) /\
    Map_get stored (file_filename file) = Some data /\
    map InMemory.stored_text (InMemory.chunks data) = embedded /\
    In (file_filename file) (InMemory.get_sessions stored).
Proof.
  intros Hx Hsplit Hok Hbad; unfold InMemory.post_upload; rewrite Hx, Hsplit.
  set (started := Map_set memoryStorage (file_filename file) _).
  destruct (embedChunks_stores emb (file_filename file) embedded
              (bad :: remaining) started
              {| InMemory.chunks := [];
                 InMemory.originalName := originalname file |})
    as [stored [data [Hrun [Hget [Htexts [_ Hkeys]]]]]].
  - unfold started; now rewrite Map_get_set, String.eqb_refl.
  - assumption.
  - right; now exists bad, remaining, e.
  - rewrite Hrun; exists stored, data; repeat split; try assumption.
    unfold InMemory.get_sessions; rewrite Hkeys; apply Map_set_has.
Qed.

Lemma InMemory_upload_failure_keeps_part_witness :
  exists stored data,
    InMemory.post_upload Fixture.failOnThird Fixture.longExtract
      (Some Sample.contract) []
      = Some (Status 500 "Failed to get embedding from local AI", stored) /\
    Map_get stored "3f2a" = Some data /\
    map InMemory.stored_text (InMemory.chunks data) =
      [substring 0 500 Fixture.longText; substring 500 500 Fixture.longText] /\
    In "3f2a" (InMemory.get_sessions stored).
Proof.
  apply (InMemory_upload_failure_keeps_part Fixture.failOnThird
           Fixture.longExtract Sample.contract [] Fixture.longText
           [substring 0 500 Fixture.longText; substring 500 500 Fixture.longText]
           (substring 1000 500 Fixture.longText) []
           (Error "connect ECONNREFUSED")).
  - reflexivity.
  - vm_compute; reflexivity.
  - intros chunk [<-|[<-|[]]]; eexists; vm_compute; reflexivity.
  - vm_compute; reflexivity.
Defined.

(** ** The semantic score *)

Example semanticScore_reaches_10_on_doubles :
  PrimFloat.eqb (Binary64.semanticScore Binary64.nearestDistance)
                (Binary64.ofZ 10) = true.
Proof. vm_compute; reflexivity. Qed.

(** X24. For a candidate at a cosine distance [d] in [0, 2], the semantic
    score lies between -10 and 10, and among the candidates at a distance
    other than 0 a nearer one never scores lower. *)
Theorem semanticScore_range (c : Chunk) (d : number) :
  distance c = Some d -> 0 <= d -> d <= 2 ->
  -10 <= semanticScore c /\ semanticScore c <= 10 /\
  (forall c' d',
     distance c' = Some d' -> 0 < d -> d <= d' ->
     semanticScore c' <= semanticScore c).
Proof.
  intros Hd H0 H2.
  destruct (Qeq_dec d 0) as [Hz|Hnz].
  - assert (Hs : semanticScore c = 0).
    { unfold semanticScore, truthy; rewrite Hd.
      apply Qeq_bool_iff in Hz; now rewrite Hz. }
    rewrite Hs; repeat split; try lra; intros; lra.
  - rewrite (semanticScore_nonzero c d Hd Hnz); repeat split; try lra.
    intros c' d' Hd' Hpos Hle.
    rewrite (semanticScore_nonzero c' d' Hd') by lra; lra.
Qed.

Lemma semanticScore_range_witness :
  -10 <= semanticScore Sample.firstChunk /\
  semanticScore Sample.firstChunk <= 10 /\
  (forall c' d',
     distance c' = Some d' -> 0 < 1 # 4 -> 1 # 4 <= d' ->
     semanticScore c' <= semanticScore Sample.firstChunk).
Proof.
  apply (semanticScore_range Sample.firstChunk (1 # 4)).
  - reflexivity.
  - lra.
  - lra.
Defined.
